(** * j5: the Arduino hardware backend and the board group

    A shallow embedding of [j5/backends/hardware/j5/arduino.py] and of the
    board group its boards are collected in, with the properties of the
    specification stated over it.

    Python objects become records, the dictionary of pin data a [gmap],
    methods that mutate [self] and raise become functions in a small
    state-and-exception monad: the state a method leaves behind is kept
    when it raises, as in Python. *)

From Stdlib Require Import ZArith Lia.
From stdpp Require Import gmap strings list fin_maps sorting.

Local Open Scope Z_scope.

(** ** Values, exceptions and the monad of methods *)

(** Modelled from the spec: [GPIOPinMode] is declared in [j5.components];
    the pin state of the data model has these four modes, which are also
    the ones the backend names. *)
Inductive GPIOPinMode : Type :=
  | DIGITAL_INPUT
  | DIGITAL_INPUT_PULLUP
  | DIGITAL_OUTPUT
  | ANALOGUE_INPUT.

Global Instance GPIOPinMode_eq_dec : EqDecision GPIOPinMode.
Proof. solve_decision. Defined.

(** The Python values that are used as keys: pin identifiers are integers,
    serial numbers are strings, and a board group may be indexed with
    anything ([PyObject] is an object of any other class, by the name of
    the class). *)
Inductive pyval : Type :=
  | PyNone
  | PyBool (b : bool)
  | PyInt (z : Z)
  | PyStr (s : string)
  | PyObject (class_name : string).

(** The texts of the exceptions, one constructor per message of the source
    (the f-string arguments are the constructor's arguments; the board name
    is the same in all of them and is left out). *)
Inductive message : Type :=
  | mode_not_supported (pin_mode : GPIOPinMode) (identifier : Z)
  | digital_on_analogue_pin
  | analogue_on_digital_pin
  | no_dac
  | no_pwm
  | needs_digital_output_to_set (identifier : Z)
  | needs_digital_output_to_read (identifier : Z)
  | needs_digital_input_to_read (identifier : Z)
  | only_led_0
  | no_board_found
  | more_than_one_board_found
  | transport_failure (text : string).

(** Exception classes. [ValueError] is what the specification calls the
    InvalidState kind (a pin in the wrong mode) and the InvalidArgument kind
    (an unknown LED), [KeyError] is its NotFound kind. *)
Inductive exn : Type :=
  | NotSupportedByHardwareError (m : message)
  | ValueError (m : message)
  | KeyError (key : pyval)
  | TypeError
  | StopIteration
  | CommunicationError (m : message).

Inductive result (A : Type) : Type :=
  | Ok (a : A)
  | Raise (e : exn).
Global Arguments Ok {A} a.
Global Arguments Raise {A} e.

(** A method on a receiver of type [S]: the outcome and the receiver after
    the call. *)
Definition method (S A : Type) : Type := S → result A * S.

Global Instance method_ret {S} : MRet (method S) := λ A a s, (Ok a, s).
Global Instance method_bind {S} : MBind (method S) :=
  λ A B k m s, match m s with
               | (Ok a, s') => k a s'
               | (Raise e, s') => (Raise e, s')
               end.
Definition raise {S A} (e : exn) : method S A := λ s, (Raise e, s).

(** ** The Arduino backend *)

Module Arduino.

(** *** Data *)

Record DigitalPinData : Type := {
  mode : GPIOPinMode;
  state : bool
}.

Global Instance DigitalPinData_eq_dec : EqDecision DigitalPinData.
Proof. solve_decision. Defined.

Definition with_mode (d : DigitalPinData) (m : GPIOPinMode) : DigitalPinData :=
  {| mode := m; state := state d |}.
Definition with_state (d : DigitalPinData) (s : bool) : DigitalPinData :=
  {| mode := mode d; state := s |}.

(** A port as [comports()] lists it. *)
Record ListPortInfo : Type := {
  vid : Z;
  pid : Z;
  device : string;
  serial_number : option string
}.

(** The backend object: the serial line it owns ([T] is the state of the
    transport, opened by the constructor of the parent class) and the table
    of its digital pins. The lock the constructor creates is not taken by
    any method of this class and is left out. *)
Record ArduinoHardwareBackend (T : Type) : Type := {
  serial_port : string;
  _serial : T;
  _digital_pins : gmap Z DigitalPinData
}.
Global Arguments serial_port {T} _.
Global Arguments _serial {T} _.
Global Arguments _digital_pins {T} _.

(** The abstract methods, which the backends of the firmwares implement:
    they talk to the serial line. [_update_digital_pin] sends the stored
    data of the pin; all three may fail on the line. *)
Class ArduinoFirmware (T float : Type) : Type := {
  _update_digital_pin : Z → DigitalPinData → T → result unit * T;
  _read_digital_pin : Z → T → result bool * T;
  _read_analogue_pin : Z → T → result float * T
}.

Definition USB_IDS : gset (Z * Z) :=
  {[ (0x2341, 0x0043); (0x2a03, 0x0043); (0x1a86, 0x7523); (0x10c4, 0xea60) ]}.

Definition is_arduino (port : ListPortInfo) : bool :=
  bool_decide ((vid port, pid port) ∈ USB_IDS).

(** The set literal at the head of [set_gpio_pin_mode]. *)
Definition digital_pin_modes : list GPIOPinMode :=
  [DIGITAL_INPUT; DIGITAL_INPUT_PULLUP; DIGITAL_OUTPUT].

Section Backend.
(** [FIRST_ANALOGUE_PIN] is a constant of the board class [ArduinoUno],
    which is declared in [j5.boards.arduino]: it is a parameter here. *)
Variable FIRST_ANALOGUE_PIN : Z.
Context {T float : Type} `{!ArduinoFirmware T float}.

Local Abbreviation Backend := (ArduinoHardwareBackend T).

(** [__init__]: the parent class opens the serial line with
    [serial_class] (at 115200 baud and with the default timeout, which are
    left to [serial_class] here), and every pin of
    [range(2, FIRST_ANALOGUE_PIN)] starts as a digital input that is
    low. *)
Definition __init__ (port : string) (serial_class : string → T) : Backend :=
  {| serial_port := port;
     _serial := serial_class port;
     _digital_pins :=
       list_to_map
         ((λ i, (i, {| mode := DIGITAL_INPUT; state := false |}))
            <$> seqZ 2 (FIRST_ANALOGUE_PIN - 2)) |}.

(** [self._digital_pins[identifier]], which raises [KeyError] when the
    dictionary has no such key. *)
Definition pin (identifier : Z) : method Backend DigitalPinData :=
  λ self, match _digital_pins self !! identifier with
          | Some d => (Ok d, self)
          | None => (Raise (KeyError (PyInt identifier)), self)
          end.

(** An assignment to a field of [self._digital_pins[identifier]]: the
    object in the dictionary is mutated in place. *)
Definition set_pin (identifier : Z) (d : DigitalPinData) : method Backend unit :=
  λ self, (Ok tt,
           {| serial_port := serial_port self;
              _serial := _serial self;
              _digital_pins := <[identifier := d]> (_digital_pins self) |}).

(** A call on the serial line. *)
Definition on_serial {A} (f : T → result A * T) : method Backend A :=
  λ self, let '(r, t) := f (_serial self) in
          (r, {| serial_port := serial_port self;
                 _serial := t;
                 _digital_pins := _digital_pins self |}).

(** [self._update_digital_pin(identifier)]: the stored data of the pin
    goes to the Arduino. *)
Definition update_digital_pin (identifier : Z) : method Backend unit :=
  d ← pin identifier;
  on_serial (_update_digital_pin identifier d).

Definition set_gpio_pin_mode (identifier : Z) (pin_mode : GPIOPinMode)
  : method Backend unit :=
  if bool_decide (identifier < FIRST_ANALOGUE_PIN) then
    if bool_decide (pin_mode ∈ digital_pin_modes) then
      d ← pin identifier;
      set_pin identifier (with_mode d pin_mode);;
      update_digital_pin identifier
    else raise (NotSupportedByHardwareError (mode_not_supported pin_mode identifier))
  else
    if bool_decide (pin_mode = ANALOGUE_INPUT) then mret tt
    else raise (NotSupportedByHardwareError (mode_not_supported pin_mode identifier)).

Definition get_gpio_pin_mode (identifier : Z) : method Backend GPIOPinMode :=
  if bool_decide (identifier < FIRST_ANALOGUE_PIN) then
    d ← pin identifier; mret (mode d)
  else mret ANALOGUE_INPUT.

Definition write_gpio_pin_digital_state (identifier : Z) (st : bool)
  : method Backend unit :=
  if bool_decide (identifier >= FIRST_ANALOGUE_PIN) then
    raise (NotSupportedByHardwareError digital_on_analogue_pin)
  else
    d ← pin identifier;
    if bool_decide (mode d ≠ DIGITAL_OUTPUT) then
      raise (ValueError (needs_digital_output_to_set identifier))
    else
      d' ← pin identifier;
      set_pin identifier (with_state d' st);;
      update_digital_pin identifier.

Definition get_gpio_pin_digital_state (identifier : Z) : method Backend bool :=
  if bool_decide (identifier >= FIRST_ANALOGUE_PIN) then
    raise (NotSupportedByHardwareError digital_on_analogue_pin)
  else
    d ← pin identifier;
    if bool_decide (mode d ≠ DIGITAL_OUTPUT) then
      raise (ValueError (needs_digital_output_to_read identifier))
    else
      d' ← pin identifier; mret (state d').

Definition read_gpio_pin_digital_state (identifier : Z) : method Backend bool :=
  if bool_decide (identifier >= FIRST_ANALOGUE_PIN) then
    raise (NotSupportedByHardwareError digital_on_analogue_pin)
  else
    d ← pin identifier;
    if bool_decide (mode d ∉ [DIGITAL_INPUT; DIGITAL_INPUT_PULLUP]) then
      raise (ValueError (needs_digital_input_to_read identifier))
    else on_serial (_read_digital_pin identifier).

Definition read_gpio_pin_analogue_value (identifier : Z) : method Backend float :=
  if bool_decide (identifier < FIRST_ANALOGUE_PIN) then
    raise (NotSupportedByHardwareError analogue_on_digital_pin)
  else on_serial (_read_analogue_pin identifier).

Definition write_gpio_pin_dac_value (identifier : Z) (scaled_value : float)
  : method Backend unit :=
  raise (NotSupportedByHardwareError no_dac).

Definition write_gpio_pin_pwm_value (identifier : Z) (duty_cycle : float)
  : method Backend unit :=
  raise (NotSupportedByHardwareError no_pwm).

Definition get_led_state (identifier : Z) : method Backend bool :=
  if bool_decide (identifier ≠ 0) then raise (ValueError only_led_0)
  else get_gpio_pin_digital_state 13.

Definition set_led_state (identifier : Z) (st : bool) : method Backend unit :=
  if bool_decide (identifier ≠ 0) then raise (ValueError only_led_0)
  else write_gpio_pin_digital_state 13 st.

(** *** Discovery *)

(** The board a backend belongs to: [cls.board(serial, backend)]. *)
Record Board : Type := {
  serial : option string;
  _backend : Backend
}.

(** Modelled from the spec: the class [Board] is declared in [j5.boards];
    the equality and the hash of a board are based on its serial number.
    A set of boards then holds at most one board for a serial number, and
    it is modelled as the map from the serial numbers of its members to
    the members; [add] is [set.add], which leaves the set as it is when
    it has a member equal to the new one. *)
Definition add (b : Board) (boards : gmap (option string) Board)
  : gmap (option string) Board :=
  match boards !! serial b with
  | Some _ => boards
  | None => <[serial b := b]> boards
  end.

(** [discover]: [comports] is what the call [comports()] returns. *)
Definition discover (comports : list ListPortInfo) (serial_class : string → T)
  : gmap (option string) Board :=
  foldl
    (λ boards port,
       add {| serial := serial_number port;
              _backend := __init__ (device port) serial_class |} boards)
    ∅ (List.filter is_arduino comports).

(** *** Calls *)

(** The methods of the two interfaces, as a client calls them. *)
Inductive call : Type :=
  | SetGpioPinMode (identifier : Z) (pin_mode : GPIOPinMode)
  | GetGpioPinMode (identifier : Z)
  | WriteGpioPinDigitalState (identifier : Z) (st : bool)
  | GetGpioPinDigitalState (identifier : Z)
  | ReadGpioPinDigitalState (identifier : Z)
  | ReadGpioPinAnalogueValue (identifier : Z)
  | WriteGpioPinDacValue (identifier : Z) (scaled_value : float)
  | WriteGpioPinPwmValue (identifier : Z) (duty_cycle : float)
  | GetLedState (identifier : Z)
  | SetLedState (identifier : Z) (st : bool).

(** What a call leaves behind, its value forgotten: the exception it
    raised, if any, and the backend. *)
Definition finish {A} (r : result A * Backend) : option exn * Backend :=
  (match r.1 with Ok _ => None | Raise e => Some e end, r.2).

Definition perform (c : call) (self : Backend) : option exn * Backend :=
  match c with
  | SetGpioPinMode i m => finish (set_gpio_pin_mode i m self)
  | GetGpioPinMode i => finish (get_gpio_pin_mode i self)
  | WriteGpioPinDigitalState i st => finish (write_gpio_pin_digital_state i st self)
  | GetGpioPinDigitalState i => finish (get_gpio_pin_digital_state i self)
  | ReadGpioPinDigitalState i => finish (read_gpio_pin_digital_state i self)
  | ReadGpioPinAnalogueValue i => finish (read_gpio_pin_analogue_value i self)
  | WriteGpioPinDacValue i v => finish (write_gpio_pin_dac_value i v self)
  | WriteGpioPinPwmValue i v => finish (write_gpio_pin_pwm_value i v self)
  | GetLedState i => finish (get_led_state i self)
  | SetLedState i st => finish (set_led_state i st self)
  end.

(** The backends a client can hold: a constructed one, after any calls. *)
Inductive reachable : Backend → Prop :=
  | reachable_init port serial_class :
      reachable (__init__ port serial_class)
  | reachable_call c self :
      reachable self → reachable (perform c self).2.

(** *** Vocabulary of the properties *)

(** The backend after a pin update was sent: the table is [pins], the
    serial line is what the firmware's update of pin [i] with [d] leaves. *)
Definition sent (self : Backend) (i : Z) (d : DigitalPinData)
    (pins : gmap Z DigitalPinData) : result unit * Backend :=
  ((_update_digital_pin i d (_serial self)).1,
   {| serial_port := serial_port self;
      _serial := (_update_digital_pin i d (_serial self)).2;
      _digital_pins := pins |}).

(** The board [discover] constructs for a port. *)
Definition board_of (serial_class : string → T) (port : ListPortInfo) : Board :=
  {| serial := serial_number port;
     _backend := __init__ (device port) serial_class |}.

(** Is [port] a port with the serial number [s]? *)
Definition has_serial (s : option string) (port : ListPortInfo) : bool :=
  bool_decide (serial_number port = s).

(** The table has an entry for the digital pins and for nothing else. *)
Definition pins_wf (self : Backend) : Prop :=
  ∀ i, is_Some (_digital_pins self !! i) ↔ 2 ≤ i < FIRST_ANALOGUE_PIN.

(** Every mode in the table is one of the three digital modes. *)
Definition modes_digital (self : Backend) : Prop :=
  ∀ i d, _digital_pins self !! i = Some d → mode d ∈ digital_pin_modes.

(** A client's calls, one after the other, whatever each returns or
    raises (the client catches the exceptions). *)
Definition perform_all (cs : list call) (self : Backend) : Backend :=
  foldl (λ b c, (perform c b).2) self cs.

(** Is [c] a call that writes the digital state of pin [i]: the write on
    the pin, or the write of LED 0 when the pin is 13? *)
Definition writes_state (i : Z) (c : call) : bool :=
  match c with
  | WriteGpioPinDigitalState j _ => bool_decide (j = i)
  | SetLedState led _ => bool_decide (led = 0 ∧ i = 13)
  | _ => false
  end.

(** Is [c] a call that sets the mode of pin [i]? *)
Definition sets_mode (i : Z) (c : call) : bool :=
  match c with
  | SetGpioPinMode j _ => bool_decide (j = i)
  | _ => false
  end.

End Backend.

Global Arguments Board : clear implicits.
Global Arguments call : clear implicits.

(** *** A firmware for the examples

    A serial line that records what is sent to it: the pin updates, latest
    first. It reads every digital pin as low and every analogue pin as 0. *)
Module Recording.
Definition line : Type := list (Z * DigitalPinData).

#[export] Instance firmware : ArduinoFirmware line Z := {|
  _update_digital_pin i d t := (Ok tt, (i, d) :: t);
  _read_digital_pin i t := (Ok false, t);
  _read_analogue_pin i t := (Ok 0, t)
|}.

(** The Uno: its first analogue pin is pin 14. *)
Definition uno : ArduinoHardwareBackend line := __init__ 14 "/dev/ttyACM0" (λ _, []).

(** Three ports: a real Uno, a port that is no Arduino, and a second port
    with the serial number of the first. *)
Definition real_uno : ListPortInfo :=
  {| vid := 0x1a86; pid := 0x7523; device := "/dev/ttyUSB0";
     serial_number := Some "A1" |}.

Definition ports : list ListPortInfo :=
  [ real_uno;
    {| vid := 0x0403; pid := 0x6001; device := "/dev/ttyUSB1";
       serial_number := Some "B2" |};
    {| vid := 0x2341; pid := 0x0043; device := "/dev/ttyACM0";
       serial_number := Some "A1" |} ].
End Recording.

End Arduino.

(** ** The board group *)

Module BoardGroups.

(** Modelled from the spec: the classes [Board] and [BoardGroup] are declared
    in [j5.boards], of which the tests of the board group are at hand. A
    board is an object with an identity ([obj], what Python's [is]
    compares), a serial number and a name; objects are constructed at the
    next free identity of the process. *)
Record Board : Type := {
  obj : nat;
  serial : string;
  name : string
}.

Global Instance Board_eq_dec : EqDecision Board.
Proof. solve_decision. Defined.

(** Python's [<=] and [<] on the serial numbers of two boards. *)
Definition serial_le (b1 b2 : Board) : Prop := String.le (serial b1) (serial b2).
Definition serial_lt (b1 b2 : Board) : Prop := String.ltb (serial b1) (serial b2) = true.

Global Instance serial_le_dec : RelDecision serial_le.
Proof. intros b1 b2. unfold serial_le. apply _. Defined.

Section BoardGroup.
(** What is attached to the machine when a discovery runs. *)
Context {Env : Type}.

(** Modelled from the spec: a backend class, as the board group uses it,
    is its Backend Discoverer. The discoverer scans the transports and
    constructs a board for every matching descriptor: [found] gives the
    serial number and the name of each, in the order of the scan. *)
Record backend_class : Type := {
  found : Env → list (string * string)
}.

(** Modelled from the spec: the set the discoverer returns. Boards are
    equal when their serial numbers are, so the set is the map from the
    serial numbers to its members, and a board equal to a member is not
    added. Every board is a newly constructed object, also one that the
    set then drops. *)
Fixpoint construct (descriptors : list (string * string))
    (boards : gmap string Board) (next : nat) : gmap string Board * nat :=
  match descriptors with
  | [] => (boards, next)
  | (s, n) :: rest =>
      let b := {| obj := next; serial := s; name := n |} in
      construct rest
        (match boards !! s with Some _ => boards | None => <[s := b]> boards end)
        (S next)
  end.

Definition discover (cls : backend_class) (env : Env) (next : nat)
  : gmap string Board * nat :=
  construct (found cls env) ∅ next.

(** Modelled from the spec: the board group, its backend class and its
    mapping from serial numbers to boards. *)
Record BoardGroup : Type := {
  _backend_class : backend_class;
  _boards : gmap string Board
}.

(** The process: the group, the iterators that are alive (each with the
    boards it has yet to yield) and the next free identity. *)
Record process : Type := {
  group : BoardGroup;
  iterators : gmap nat (list Board);
  next_obj : nat
}.

(** [update_boards()]: the discoverer runs again and its set, keyed by
    serial number, replaces the mapping. *)
Definition update_boards (env : Env) (p : process) : process :=
  let '(boards, next) := discover (_backend_class (group p)) env (next_obj p) in
  {| group := {| _backend_class := _backend_class (group p); _boards := boards |};
     iterators := iterators p;
     next_obj := next |}.

(** [get_board_group(board, backend_class)] on first use: the group is
    created and populated at once. *)
Definition get_board_group (cls : backend_class) (env : Env) (next : nat)
  : process :=
  update_boards env
    {| group := {| _backend_class := cls; _boards := ∅ |};
       iterators := ∅;
       next_obj := next |}.

(** The assignment to [_backend_class] that the tests make. *)
Definition set_backend_class (cls : backend_class) (p : process) : process :=
  {| group := {| _backend_class := cls; _boards := _boards (group p) |};
     iterators := iterators p;
     next_obj := next_obj p |}.

Definition length (g : BoardGroup) : nat := size (_boards g).

Definition contains (s : string) (g : BoardGroup) : bool :=
  bool_decide (is_Some (_boards g !! s)).

(** [singular()]. *)
Definition singular (g : BoardGroup) : result Board :=
  match (map_to_list (_boards g)).*2 with
  | [b] => Ok b
  | [] => Raise (CommunicationError no_board_found)
  | _ :: _ :: _ => Raise (CommunicationError more_than_one_board_found)
  end.

(** Indexing: the keys are strings only. *)
Definition __getitem__ (key : pyval) (g : BoardGroup) : result Board :=
  match key with
  | PyStr s =>
      match _boards g !! s with
      | Some b => Ok b
      | None => Raise (KeyError key)
      end
  | _ => Raise TypeError
  end.

(** [list_boards()]: the boards by ascending serial number. *)
Definition list_boards (g : BoardGroup) : list Board :=
  merge_sort serial_le (map_to_list (_boards g)).*2.

(** [iter(group)]: a new iterator object over a sorted copy of its own. *)
Definition __iter__ (p : process) : nat * process :=
  (next_obj p,
   {| group := group p;
      iterators := <[next_obj p := list_boards (group p)]> (iterators p);
      next_obj := S (next_obj p) |}).

(** [next(it)]. *)
Definition __next__ (it : nat) : method process Board :=
  λ p, match iterators p !! it with
       | Some (b :: rest) =>
           (Ok b, {| group := group p;
                     iterators := <[it := rest]> (iterators p);
                     next_obj := next_obj p |})
       | _ => (Raise StopIteration, p)
       end.

(** Two iterators advanced in turn: [true] advances the first, [false]
    the second; what each call returned, in order. *)
Fixpoint advance (it1 it2 : nat) (schedule : list bool) (p : process)
  : list (result Board) * process :=
  match schedule with
  | [] => ([], p)
  | which :: rest =>
      let '(r, p') := __next__ (if which then it1 else it2) p in
      let '(rs, p'') := advance it1 it2 rest p' in
      (r :: rs, p'')
  end.

(** What an iterator over [l] returns to [k] calls of [next]. *)
Definition yields (k : nat) (l : list Board) : list (result Board) :=
  (Ok <$> take k l) ++ replicate (k - List.length l) (Raise StopIteration).

(** The results of the calls made on one of the two iterators. *)
Definition results_of (which : bool) (schedule : list bool)
    (rs : list (result Board)) : list (result Board) :=
  (List.filter (λ x, bool_decide (x.1 = which)) (zip schedule rs)).*2.

(** How many calls the schedule makes on one of the two iterators. *)
Definition calls_on (which : bool) (schedule : list bool) : nat :=
  List.length (List.filter (λ x, bool_decide (x = which)) schedule).

(** A board is stored under its serial number, and it was constructed
    before the next free identity. *)
Definition stored_well (p : process) : Prop :=
  ∀ s b, _boards (group p) !! s = Some b →
    serial b = s ∧ (obj b < next_obj p)%nat.

(** The processes there can be. *)
Inductive reachable : process → Prop :=
  | reachable_get cls env next :
      reachable (get_board_group cls env next)
  | reachable_update env p :
      reachable p → reachable (update_boards env p)
  | reachable_set cls p :
      reachable p → reachable (set_backend_class cls p)
  | reachable_iter p :
      reachable p → reachable (__iter__ p).2
  | reachable_next it p :
      reachable p → reachable (__next__ it p).2.

End BoardGroup.

Global Arguments backend_class : clear implicits.
Global Arguments BoardGroup : clear implicits.
Global Arguments process : clear implicits.

(** *** The backends of the tests

    Their discoverers find no board, one board and two boards, whatever is
    attached. *)
Module Mock.
Definition NoBoardMockBackend : backend_class () :=
  {| found := λ _, [] |}.
Definition OneBoardMockBackend : backend_class () :=
  {| found := λ _, [("TESTSERIAL1", "Testing Board")] |}.
Definition TwoBoardsMockBackend : backend_class () :=
  {| found := λ _, [("TESTSERIAL1", "Testing Board");
                    ("TESTSERIAL2", "Testing Board")] |}.

Definition board1 (o : nat) : Board :=
  {| obj := o; serial := "TESTSERIAL1"; name := "Testing Board" |}.
Definition board2 (o : nat) : Board :=
  {| obj := o; serial := "TESTSERIAL2"; name := "Testing Board" |}.
End Mock.

End BoardGroups.

(** ** Properties of the Arduino backend *)

Module ArduinoProperties.
Import Arduino.

Section Properties.
Variable FIRST_ANALOGUE_PIN : Z.
Context {T float : Type} `{!ArduinoFirmware T float}.

Local Abbreviation Backend := (ArduinoHardwareBackend T).
Local Abbreviation N := FIRST_ANALOGUE_PIN.

Implicit Types (self : Backend) (identifier i : Z) (st : bool)
  (pin_mode : GPIOPinMode) (d : DigitalPinData) (path : string)
  (port : ListPortInfo) (serial_class : string → T) (c : call float).

(** Unfolds a method down to the dictionary and the serial line. *)
Ltac unfold_method :=
  unfold perform, finish, set_led_state, get_led_state,
    write_gpio_pin_pwm_value, write_gpio_pin_dac_value,
    read_gpio_pin_analogue_value, read_gpio_pin_digital_state,
    get_gpio_pin_digital_state, write_gpio_pin_digital_state,
    get_gpio_pin_mode, set_gpio_pin_mode, update_digital_pin,
    on_serial, set_pin, pin, raise, mbind, method_bind, mret, method_ret.

(** Splits on every test, lookup and answer of the serial line that the
    goal is stuck on. *)
Ltac split_method :=
  repeat (simpl in *;
    match goal with
    | |- context [bool_decide _] => case_bool_decide
    | |- context [_digital_pins ?b !! ?i] =>
        let E := fresh "E" in destruct (_digital_pins b !! i) eqn:E
    | |- context [<[?i := ?d]> ?m !! ?i] => rewrite (lookup_insert_eq m i d)
    | |- context [_update_digital_pin ?i ?d ?t] =>
        let r := fresh "r" in destruct (_update_digital_pin i d t) as [[[]|?] ?]
    | |- context [_read_digital_pin ?i ?t] =>
        destruct (_read_digital_pin i t) as [[?|?] ?]
    | |- context [_read_analogue_pin ?i ?t] =>
        destruct (_read_analogue_pin i t) as [[?|?] ?]
    end).

Lemma init_lookup path serial_class i :
  _digital_pins (__init__ N path serial_class) !! i =
    if bool_decide (2 ≤ i < N)
    then Some {| mode := DIGITAL_INPUT; state := false |}
    else None.
Proof.
  simpl. case_bool_decide as Hi.
  - apply elem_of_list_to_map_1.
    + rewrite <- list_fmap_compose. simpl. rewrite list_fmap_id.
      apply NoDup_seqZ.
    + apply list_elem_of_fmap. exists i. split; [done|].
      apply elem_of_seqZ. lia.
  - apply not_elem_of_list_to_map_1.
    rewrite <- list_fmap_compose. simpl. rewrite list_fmap_id.
    rewrite elem_of_seqZ. lia.
Qed.

Lemma pins_wf_init path serial_class :
  pins_wf N (__init__ N path serial_class).
Proof.
  intros i. rewrite init_lookup. case_bool_decide as Hi.
  - split; [done | by eexists].
  - split; [by intros [? ?] | done].
Qed.

(** A call changes no key of the table. *)
Lemma perform_dom c self :
  dom (_digital_pins (perform N c self).2) = dom (_digital_pins self).
Proof.
  destruct c; unfold_method; split_method; try done;
    simpl; rewrite dom_insert_L;
    apply subseteq_union_1_L, singleton_subseteq_l, elem_of_dom; eauto.
Qed.

Lemma pins_wf_dom self :
  pins_wf N self ↔ ∀ i, i ∈ dom (_digital_pins self) ↔ 2 ≤ i < N.
Proof. unfold pins_wf. by setoid_rewrite elem_of_dom. Qed.

Lemma reachable_pins_wf self : reachable N self → pins_wf N self.
Proof.
  induction 1 as [path serial_class|c self _ IH].
  - apply pins_wf_init.
  - apply pins_wf_dom. rewrite perform_dom. by apply pins_wf_dom.
Qed.

Lemma set_gpio_pin_mode_digital self i pin_mode d :
  i < N → pin_mode ∈ digital_pin_modes → _digital_pins self !! i = Some d →
  set_gpio_pin_mode N i pin_mode self =
    sent self i (with_mode d pin_mode)
      (<[i := with_mode d pin_mode]> (_digital_pins self)).
Proof.
  intros Hi Hm Hd. unfold sent. unfold_method.
  rewrite !bool_decide_true by done. rewrite Hd. simpl.
  rewrite lookup_insert_eq. simpl.
  by destruct (_update_digital_pin _ _ _).
Qed.

Lemma write_gpio_pin_digital_state_output self i st d :
  i < N → _digital_pins self !! i = Some d → mode d = DIGITAL_OUTPUT →
  write_gpio_pin_digital_state N i st self =
    sent self i (with_state d st)
      (<[i := with_state d st]> (_digital_pins self)).
Proof.
  intros Hi Hd Hm. unfold sent. unfold_method.
  rewrite bool_decide_false by lia. rewrite Hd. simpl.
  rewrite bool_decide_false by (by rewrite Hm; intros []).
  rewrite Hd. simpl. rewrite lookup_insert_eq. simpl.
  by destruct (_update_digital_pin _ _ _).
Qed.

Lemma get_gpio_pin_digital_state_output self i d :
  i < N → _digital_pins self !! i = Some d → mode d = DIGITAL_OUTPUT →
  get_gpio_pin_digital_state N i self = (Ok (state d), self).
Proof.
  intros Hi Hd Hm. unfold_method.
  rewrite bool_decide_false by lia. rewrite Hd. simpl.
  rewrite bool_decide_false by (by rewrite Hm; intros []).
  by rewrite Hd.
Qed.

(** *** Discovery *)

Lemma add_all_lookup serial_class (ports : list ListPortInfo)
    (boards : gmap (option string) (Board T)) s :
  foldl (λ boards port, add (board_of N serial_class port) boards) boards ports !! s =
    match boards !! s with
    | Some b => Some b
    | None => board_of N serial_class <$> List.find (has_serial s) ports
    end.
Proof.
  revert boards. induction ports as [|port ports IH]; intros boards; simpl.
  - by destruct (boards !! s).
  - rewrite IH. unfold add, has_serial. simpl.
    destruct (boards !! serial_number port) eqn:Hp.
    + case_bool_decide as Hs; [|done]. subst s. by rewrite Hp.
    + case_bool_decide as Hs.
      * subst s. by rewrite lookup_insert_eq, Hp.
      * by rewrite lookup_insert_ne.
Qed.

Lemma find_filter {A} (f g : A → bool) (l : list A) :
  List.find f (List.filter g l) = List.find (λ x, g x && f x) l.
Proof.
  induction l as [|x l IH]; simpl; [done|].
  destruct (g x); simpl; [|done]. by destruct (f x).
Qed.

Lemma filter_twice {A} (f : A → bool) (l : list A) :
  List.filter f (List.filter f l) = List.filter f l.
Proof.
  induction l as [|x l IH]; simpl; [done|].
  destruct (f x) eqn:Hx; simpl; [|done]. by rewrite Hx, IH.
Qed.

Lemma discover_lookup (comports : list ListPortInfo) serial_class s :
  discover N comports serial_class !! s =
    board_of N serial_class
      <$> List.find (λ port, is_arduino port && has_serial s port) comports.
Proof.
  unfold discover.
  change (foldl _ ∅ ?l) with
    (foldl (λ boards port, add (board_of N serial_class port) boards) ∅ l).
  by rewrite add_all_lookup, lookup_empty, find_filter.
Qed.

(** *** The pin operations *)

(** C3, as amended. On a backend a client can hold, for every pin
    identifier that is an analogue pin or has an entry in the pin table
    (2 up to the first analogue pin) and every state:
    [write_gpio_pin_digital_state] raises [NotSupportedByHardwareError]
    and changes nothing if the pin is analogue; it raises [ValueError]
    (the InvalidState kind) and changes nothing if the mode of the pin is
    not [DIGITAL_OUTPUT]; otherwise it stores the state in the table,
    sends the stored data of the pin to the serial line, and
    [get_gpio_pin_digital_state] on that pin then returns the state that
    was written. *)
Theorem write_gpio_pin_digital_state_spec self identifier st :
  reachable N self →
  (N ≤ identifier →
     write_gpio_pin_digital_state N identifier st self =
       (Raise (NotSupportedByHardwareError digital_on_analogue_pin), self))
  ∧ (2 ≤ identifier < N →
     ∃ d, _digital_pins self !! identifier = Some d
       ∧ (mode d ≠ DIGITAL_OUTPUT →
            write_gpio_pin_digital_state N identifier st self =
              (Raise (ValueError (needs_digital_output_to_set identifier)), self))
       ∧ (mode d = DIGITAL_OUTPUT →
            let after := write_gpio_pin_digital_state N identifier st self in
            after =
              sent self identifier (with_state d st)
                (<[identifier := with_state d st]> (_digital_pins self))
            ∧ get_gpio_pin_digital_state N identifier after.2 = (Ok st, after.2))).
Proof.
  intros Hreach. split.
  - intros Hi. unfold_method. by rewrite bool_decide_true by lia.
  - intros Hi. destruct (proj2 (reachable_pins_wf _ Hreach identifier) Hi) as [d Hd].
    exists d. split; [done|]. split.
    + intros Hm. unfold_method. rewrite bool_decide_false by lia.
      rewrite Hd. simpl. by rewrite bool_decide_true.
    + intros Hm. simpl.
      rewrite (write_gpio_pin_digital_state_output self identifier st d)
        by (done || lia).
      split; [done|].
      rewrite (get_gpio_pin_digital_state_output _ identifier (with_state d st));
        [done | lia | apply lookup_insert_eq | done].
Qed.

(** C4, as amended. On a backend a client can hold,
    [set_gpio_pin_mode] accepts exactly the modes [DIGITAL_INPUT],
    [DIGITAL_INPUT_PULLUP] and [DIGITAL_OUTPUT] for the digital pins that
    have an entry in the pin table (2 up to the first analogue pin): it
    stores the mode in the table and sends the stored data of the pin to
    the serial line at once. For the analogue pins it accepts
    [ANALOGUE_INPUT] only, and does nothing. A digital mode on an analogue
    pin, and [ANALOGUE_INPUT] on any pin below the first analogue pin,
    raise [NotSupportedByHardwareError] and change nothing. *)
Theorem set_gpio_pin_mode_spec self identifier pin_mode :
  reachable N self →
  (2 ≤ identifier < N → pin_mode ∈ digital_pin_modes →
     ∃ d, _digital_pins self !! identifier = Some d
       ∧ set_gpio_pin_mode N identifier pin_mode self =
           sent self identifier (with_mode d pin_mode)
             (<[identifier := with_mode d pin_mode]> (_digital_pins self)))
  ∧ (N ≤ identifier → pin_mode = ANALOGUE_INPUT →
     set_gpio_pin_mode N identifier pin_mode self = (Ok (), self))
  ∧ (N ≤ identifier → pin_mode ≠ ANALOGUE_INPUT →
     set_gpio_pin_mode N identifier pin_mode self =
       (Raise (NotSupportedByHardwareError
                 (mode_not_supported pin_mode identifier)), self))
  ∧ (identifier < N → pin_mode ∉ digital_pin_modes →
     set_gpio_pin_mode N identifier pin_mode self =
       (Raise (NotSupportedByHardwareError
                 (mode_not_supported pin_mode identifier)), self))
  ∧ (pin_mode ∈ digital_pin_modes ↔ pin_mode ≠ ANALOGUE_INPUT).
Proof.
  intros Hreach. repeat split.
  - intros Hi Hm.
    destruct (proj2 (reachable_pins_wf _ Hreach identifier) Hi) as [d Hd].
    exists d. split; [done|].
    apply set_gpio_pin_mode_digital; [lia|done..].
  - intros Hi ->. unfold_method. by rewrite bool_decide_false by lia.
  - intros Hi Hm. unfold_method. rewrite bool_decide_false by lia.
    by rewrite bool_decide_false.
  - intros Hi Hm. unfold_method. rewrite bool_decide_true by lia.
    by rewrite bool_decide_false.
  - intros Hm ->. unfold digital_pin_modes in Hm.
    rewrite !elem_of_cons, elem_of_nil in Hm.
    destruct Hm as [Hm|[Hm|[Hm|[]]]]; discriminate.
  - intros Hm. unfold digital_pin_modes. rewrite !elem_of_cons.
    destruct pin_mode; [left | right; left | right; right; left | ]; done.
Qed.

(** C7. For every LED identifier other than 0, [get_led_state] and
    [set_led_state] raise [ValueError] with the text that the board only
    has LED 0 (the InvalidArgument kind) and change nothing. For LED 0
    they are [get_gpio_pin_digital_state] and
    [write_gpio_pin_digital_state] on pin 13; so, pin 13 being a digital
    pin, on a backend a client can hold they raise the [ValueError] of the
    pin operation (the InvalidState kind) when pin 13 is not in mode
    [DIGITAL_OUTPUT]. *)
Theorem led_state_spec self st :
  (∀ identifier, identifier ≠ 0 →
     get_led_state N identifier self = (Raise (ValueError only_led_0), self)
     ∧ set_led_state N identifier st self = (Raise (ValueError only_led_0), self))
  ∧ get_led_state N 0 self = get_gpio_pin_digital_state N 13 self
  ∧ set_led_state N 0 st self = write_gpio_pin_digital_state N 13 st self
  ∧ (13 < N → reachable N self →
     ∃ d, _digital_pins self !! 13 = Some d
       ∧ (mode d ≠ DIGITAL_OUTPUT →
            get_led_state N 0 self =
              (Raise (ValueError (needs_digital_output_to_read 13)), self)
            ∧ set_led_state N 0 st self =
              (Raise (ValueError (needs_digital_output_to_set 13)), self))).
Proof.
  split; [|split; [|split]].
  - intros identifier Hi. unfold get_led_state, set_led_state, raise.
    by rewrite !bool_decide_true.
  - done.
  - done.
  - intros H13 Hreach.
    destruct (proj2 (reachable_pins_wf _ Hreach 13)) as [d Hd]; [lia|].
    exists d. split; [done|]. intros Hm. unfold_method.
    rewrite !(bool_decide_false (0 ≠ 0)) by (intros Hne; by apply Hne).
    rewrite !(bool_decide_false (13 >= N)) by lia.
    rewrite Hd. simpl. by rewrite !bool_decide_true.
Qed.

(** C9. [get_gpio_pin_mode], [get_gpio_pin_digital_state],
    [read_gpio_pin_digital_state] and [read_gpio_pin_analogue_value]
    leave the pin table as it was, whether they return or raise; and a
    call that changes the table is [set_gpio_pin_mode], or
    [write_gpio_pin_digital_state], or the write of LED 0, which is
    [write_gpio_pin_digital_state] on pin 13. *)
Theorem pin_table_frame self :
  (∀ identifier,
     _digital_pins (get_gpio_pin_mode N identifier self).2 = _digital_pins self
     ∧ _digital_pins (get_gpio_pin_digital_state N identifier self).2
         = _digital_pins self
     ∧ _digital_pins (read_gpio_pin_digital_state N identifier self).2
         = _digital_pins self
     ∧ _digital_pins (read_gpio_pin_analogue_value N identifier self).2
         = _digital_pins self)
  ∧ (∀ c, _digital_pins (perform N c self).2 ≠ _digital_pins self →
       (∃ identifier pin_mode, c = SetGpioPinMode identifier pin_mode)
       ∨ (∃ identifier st, c = WriteGpioPinDigitalState identifier st)
       ∨ (∃ st, c = SetLedState 0 st)).
Proof.
  split.
  - intros identifier. repeat split; unfold_method; split_method; done.
  - intros c Hc. destruct c as [i m|i|i st|i|i|i|i v|i v|i|i st]; eauto 6.
    all: try (exfalso; apply Hc; unfold_method; split_method; done).
    destruct (decide (i = 0)) as [->|Hi]; [eauto 6|].
    exfalso. apply Hc. unfold perform, finish, set_led_state, raise.
    by rewrite bool_decide_true.
Qed.

(** C10. A constructed backend has an entry for exactly the identifiers
    from 2 up to the first analogue pin, each a [DIGITAL_INPUT] that is
    low; no call changes the keys of the table; so on every backend a
    client can hold the table lookup succeeds for every such
    identifier. *)
Theorem pin_table_keys path serial_class :
  (∀ i, _digital_pins (__init__ N path serial_class) !! i =
          if bool_decide (2 ≤ i < N)
          then Some {| mode := DIGITAL_INPUT; state := false |}
          else None)
  ∧ (∀ c self, dom (_digital_pins (perform N c self).2) = dom (_digital_pins self))
  ∧ (∀ self, reachable N self →
       (∀ i, i ∈ dom (_digital_pins self) ↔ 2 ≤ i < N)
       ∧ (∀ i, 2 ≤ i < N → ∃ d, pin i self = (Ok d, self))).
Proof.
  split; [|split].
  - intros i. apply init_lookup.
  - intros c self. apply perform_dom.
  - intros self Hreach. pose proof (reachable_pins_wf _ Hreach) as Hwf. split.
    + by apply pins_wf_dom.
    + intros i Hi. destruct (proj2 (Hwf i) Hi) as [d Hd].
      exists d. unfold pin. by rewrite Hd.
Qed.

(** C6. [discover] returns a set of boards, under the equality of boards
    by serial number: the set has a board for a serial number exactly when
    a listed port with that serial number has its vendor and product
    identifiers in [USB_IDS], and the board is then the one constructed
    from the serial number of the first such port and a backend on the
    device of that port. So every board of the set comes from a matching
    port, and its backend is a newly constructed one bound to the device of
    that port: its [serial_port] is the device, its serial line is what
    [serial_class] opens on the device, and its pins are the digital inputs
    of a new backend. Every matching port has the board of its serial
    number in the set, ports with the same serial number share one board,
    and the ports that do not match change nothing. *)
Theorem discover_spec (comports : list ListPortInfo) serial_class :
  let boards := discover N comports serial_class in
  (∀ s, boards !! s =
          board_of N serial_class
            <$> List.find (λ port, is_arduino port && has_serial s port) comports)
  ∧ (∀ s b, boards !! s = Some b →
       ∃ port, port ∈ comports ∧ (vid port, pid port) ∈ USB_IDS
         ∧ serial_number port = s
         ∧ b = {| serial := serial_number port;
                  _backend := __init__ N (device port) serial_class |}
         ∧ serial b = serial_number port
         ∧ serial_port (_backend b) = device port
         ∧ _serial (_backend b) = serial_class (device port)
         ∧ (∀ i, _digital_pins (_backend b) !! i =
                   if bool_decide (2 ≤ i < N)
                   then Some {| mode := DIGITAL_INPUT; state := false |}
                   else None))
  ∧ (∀ port, port ∈ comports → (vid port, pid port) ∈ USB_IDS →
       ∃ b, boards !! serial_number port = Some b
         ∧ serial b = serial_number port)
  ∧ dom boards = list_to_set (serial_number <$> List.filter is_arduino comports)
  ∧ boards = discover N (List.filter is_arduino comports) serial_class.
Proof.
  intros boards. subst boards.
  assert (Hfound : ∀ s b, discover N comports serial_class !! s = Some b →
    ∃ port, port ∈ comports ∧ (vid port, pid port) ∈ USB_IDS
      ∧ serial_number port = s ∧ b = board_of N serial_class port).
  { intros s b. rewrite discover_lookup.
    destruct (List.find _ comports) as [port|] eqn:Hf; [|done].
    intros [= <-]. apply find_some in Hf as [Hin Hp].
    apply andb_prop in Hp as [Ha Hs].
    exists port. repeat split.
    - by apply list_elem_of_In.
    - by apply bool_decide_eq_true in Ha.
    - by apply bool_decide_eq_true in Hs. }
  assert (Hall : ∀ port, port ∈ comports → (vid port, pid port) ∈ USB_IDS →
    ∃ b, discover N comports serial_class !! serial_number port = Some b
      ∧ serial b = serial_number port).
  { intros port Hin Ha. rewrite discover_lookup.
    destruct (List.find _ comports) as [port'|] eqn:Hf.
    - apply find_some in Hf as [_ Hp]. apply andb_prop in Hp as [_ Hs].
      apply bool_decide_eq_true in Hs. eexists. split; [done|]. done.
    - exfalso. apply list_elem_of_In in Hin.
      pose proof (find_none _ _ Hf port Hin) as Hp. simpl in Hp.
      unfold is_arduino, has_serial in Hp.
      by rewrite !bool_decide_true in Hp. }
  split; [apply discover_lookup|]. split; [|split; [done|split]].
  - intros s b Hb. destruct (Hfound s b Hb) as (port & Hin & Ha & Hs & ->).
    exists port. do 4 (split; [done|]). do 3 (split; [done|]).
    intros i. apply init_lookup.
  - apply set_eq. intros s. rewrite elem_of_dom, elem_of_list_to_set.
    rewrite list_elem_of_fmap. split.
    + intros [b Hb]. destruct (Hfound s b Hb) as (port & Hin & Ha & Hs & _).
      exists port. split; [done|].
      apply list_elem_of_In, filter_In. split; [by apply list_elem_of_In|].
      by apply bool_decide_eq_true.
    + intros (port & -> & Hin). apply list_elem_of_In, filter_In in Hin as [Hin Ha].
      destruct (Hall port) as (b & Hb & _);
        [by apply list_elem_of_In | by apply bool_decide_eq_true in Ha | eauto].
  - unfold discover. by rewrite filter_twice.
Qed.

(** *** More on the pin operations *)

Lemma digital_mode_cases pin_mode :
  pin_mode ∈ digital_pin_modes ↔ pin_mode ≠ ANALOGUE_INPUT.
Proof.
  unfold digital_pin_modes. rewrite !elem_of_cons, elem_of_nil. split.
  - intros [->|[->|[->|[]]]]; discriminate.
  - intros Hm. destruct pin_mode; [left | right; left | right; right; left | ]; done.
Qed.

Lemma modes_digital_init path serial_class :
  modes_digital (__init__ N path serial_class).
Proof.
  intros i d. rewrite init_lookup. case_bool_decide; [|done].
  intros [= <-]. by apply digital_mode_cases.
Qed.

Lemma modes_digital_insert self i d (t : T) :
  modes_digital self → mode d ∈ digital_pin_modes →
  modes_digital {| serial_port := serial_port self; _serial := t;
                   _digital_pins := <[i := d]> (_digital_pins self) |}.
Proof.
  intros Hself Hd j d'. simpl. rewrite lookup_insert. case_decide.
  - by intros [= <-].
  - apply Hself.
Qed.

Lemma perform_modes_digital c self :
  modes_digital self → modes_digital (perform N c self).2.
Proof.
  intros Hself.
  destruct c; unfold_method; split_method; try done;
    try (intros j d'; apply Hself);
    apply modes_digital_insert; try done; simpl; eauto.
Qed.

Lemma reachable_modes_digital self : reachable N self → modes_digital self.
Proof.
  induction 1 as [path serial_class|c self _ IH].
  - apply modes_digital_init.
  - by apply perform_modes_digital.
Qed.

(** X1. On a backend a client can hold, [read_gpio_pin_digital_state]
    raises [NotSupportedByHardwareError] on an analogue pin; on a pin of the
    table it is the answer of the serial line when the pin is not in mode
    [DIGITAL_OUTPUT] (the table holds digital modes only, so the pin is an
    input then), and it raises [ValueError] when the pin is an output. The
    cached read [get_gpio_pin_digital_state] does the opposite: on a pin of
    the table exactly one of the two reads is allowed. *)
Theorem read_gpio_pin_digital_state_spec self identifier :
  reachable N self →
  (N ≤ identifier →
     read_gpio_pin_digital_state N identifier self =
       (Raise (NotSupportedByHardwareError digital_on_analogue_pin), self))
  ∧ (2 ≤ identifier < N →
     ∃ d, _digital_pins self !! identifier = Some d
       ∧ (mode d = DIGITAL_OUTPUT →
            read_gpio_pin_digital_state N identifier self =
              (Raise (ValueError (needs_digital_input_to_read identifier)), self)
            ∧ get_gpio_pin_digital_state N identifier self = (Ok (state d), self))
       ∧ (mode d ≠ DIGITAL_OUTPUT →
            read_gpio_pin_digital_state N identifier self =
              on_serial (_read_digital_pin identifier) self
            ∧ get_gpio_pin_digital_state N identifier self =
              (Raise (ValueError (needs_digital_output_to_read identifier)), self))).
Proof.
  intros Hreach. split.
  - intros Hi. unfold_method. by rewrite bool_decide_true by lia.
  - intros Hi. destruct (proj2 (reachable_pins_wf _ Hreach identifier) Hi) as [d Hd].
    pose proof (reachable_modes_digital _ Hreach identifier d Hd) as Hmode.
    exists d. split; [done|]. split.
    + intros Hm. split.
      * unfold_method. rewrite bool_decide_false by lia. rewrite Hd. simpl.
        rewrite bool_decide_true; [done|]. rewrite Hm.
        rewrite !elem_of_cons, elem_of_nil. by intros [|[|[]]].
      * apply get_gpio_pin_digital_state_output; [lia|done..].
    + intros Hm. split.
      * unfold_method. rewrite bool_decide_false by lia. rewrite Hd. simpl.
        rewrite bool_decide_false; [done|]. intros Hnot. apply Hnot.
        unfold digital_pin_modes in Hmode.
        rewrite !elem_of_cons, elem_of_nil in *.
        destruct Hmode as [?|[?|[?|[]]]]; auto.
      * unfold_method. rewrite bool_decide_false by lia. rewrite Hd. simpl.
        by rewrite bool_decide_true.
Qed.

(** X2. [read_gpio_pin_analogue_value] raises [NotSupportedByHardwareError]
    and changes nothing for every identifier below the first analogue pin
    (also below 2: the table is not looked at); from the first analogue pin
    on it is the answer of the serial line. Its outcome does not depend on
    the pin table: two backends with the same serial line give the same. *)
Theorem read_gpio_pin_analogue_value_spec self identifier :
  (identifier < N →
     read_gpio_pin_analogue_value N identifier self =
       (Raise (NotSupportedByHardwareError analogue_on_digital_pin), self))
  ∧ (N ≤ identifier →
     read_gpio_pin_analogue_value N identifier self =
       on_serial (_read_analogue_pin identifier) self)
  ∧ (∀ other : Backend, _serial other = _serial self →
       (read_gpio_pin_analogue_value N identifier other).1 =
         (read_gpio_pin_analogue_value N identifier self).1
       ∧ _serial (read_gpio_pin_analogue_value N identifier other).2 =
         _serial (read_gpio_pin_analogue_value N identifier self).2).
Proof.
  split; [|split].
  - intros Hi. unfold_method. by rewrite bool_decide_true.
  - intros Hi. unfold_method. by rewrite bool_decide_false by lia.
  - intros other Hline. unfold_method. case_bool_decide; simpl; [done|].
    rewrite Hline. by destruct (_read_analogue_pin _ _).
Qed.

(** X3. The calls that answer from the table, and the two that the
    hardware does not support, leave the whole backend as it was, the
    serial line included, whatever they return or raise:
    [get_gpio_pin_mode], [get_gpio_pin_digital_state], [get_led_state],
    [write_gpio_pin_dac_value] and [write_gpio_pin_pwm_value]; the last two
    raise [NotSupportedByHardwareError] for every pin and value. *)
Theorem cached_calls_leave_backend self identifier (v : float) :
  (get_gpio_pin_mode N identifier self).2 = self
  ∧ (get_gpio_pin_digital_state N identifier self).2 = self
  ∧ (get_led_state N identifier self).2 = self
  ∧ write_gpio_pin_dac_value identifier v self =
      (Raise (NotSupportedByHardwareError no_dac), self)
  ∧ write_gpio_pin_pwm_value identifier v self =
      (Raise (NotSupportedByHardwareError no_pwm), self).
Proof. repeat split; unfold_method; split_method; done. Qed.

(** X4. On a backend a client can hold, after [set_gpio_pin_mode] with a
    digital mode on a pin of the table, [get_gpio_pin_mode] on the pin
    returns that mode, also when the serial line failed during the update;
    and for every identifier from the first analogue pin on,
    [get_gpio_pin_mode] returns [ANALOGUE_INPUT]. *)
Theorem set_then_get_gpio_pin_mode self identifier pin_mode :
  reachable N self →
  (2 ≤ identifier < N → pin_mode ∈ digital_pin_modes →
     let after := (set_gpio_pin_mode N identifier pin_mode self).2 in
     get_gpio_pin_mode N identifier after = (Ok pin_mode, after))
  ∧ (N ≤ identifier →
     get_gpio_pin_mode N identifier self = (Ok ANALOGUE_INPUT, self)).
Proof.
  intros Hreach. split.
  - intros Hi Hm.
    destruct (proj2 (reachable_pins_wf _ Hreach identifier) Hi) as [d Hd].
    rewrite (set_gpio_pin_mode_digital self identifier pin_mode d) by (done || lia).
    unfold sent. simpl. unfold_method.
    rewrite bool_decide_true by lia. simpl. by rewrite lookup_insert_eq.
  - intros Hi. unfold_method. by rewrite bool_decide_false by lia.
Qed.

(** X5. On a backend a client can hold, no pin of the table is ever in
    mode [ANALOGUE_INPUT]; so, for an identifier of at least 2,
    [get_gpio_pin_mode] returns [ANALOGUE_INPUT] exactly when the
    identifier is at or above the first analogue pin. *)
Theorem analogue_mode_iff_analogue_pin self :
  reachable N self →
  (∀ i d, _digital_pins self !! i = Some d → mode d ≠ ANALOGUE_INPUT)
  ∧ (∀ identifier, 2 ≤ identifier →
       (get_gpio_pin_mode N identifier self).1 = Ok ANALOGUE_INPUT
       ↔ N ≤ identifier).
Proof.
  intros Hreach.
  assert (Hmodes : ∀ i d, _digital_pins self !! i = Some d → mode d ≠ ANALOGUE_INPUT).
  { intros i d Hd. apply digital_mode_cases.
    by apply (reachable_modes_digital _ Hreach i). }
  split; [done|]. intros identifier Hi. unfold_method. case_bool_decide as Hlt.
  - destruct (proj2 (reachable_pins_wf _ Hreach identifier)) as [d Hd]; [lia|].
    rewrite Hd. simpl. split; [|lia]. intros [= Hm]. by destruct (Hmodes _ _ Hd).
  - simpl. split; [lia|done].
Qed.

(** What a call does to the table: nothing, or it replaces the entry of
    one pin, with a new mode if it sets the mode and with a new state if it
    writes. *)
Lemma perform_table (c : call float) self :
  _digital_pins (perform N c self).2 = _digital_pins self
  ∨ ∃ j d, _digital_pins self !! j = Some d
      ∧ ((∃ m, c = SetGpioPinMode j m
            ∧ _digital_pins (perform N c self).2
                = <[j := with_mode d m]> (_digital_pins self))
         ∨ (∃ st, (c = WriteGpioPinDigitalState j st ∨ (j = 13 ∧ c = SetLedState 0 st))
              ∧ _digital_pins (perform N c self).2
                  = <[j := with_state d st]> (_digital_pins self))).
Proof.
  destruct c as [j m|j|j st|j|j|j|j v|j v|j|j st].
  all: try (left; unfold_method; split_method; done).
  - unfold_method. destruct (_digital_pins self !! j) as [d|] eqn:Hd;
      split_method; try (by left).
    all: right; do 2 eexists; split; [eassumption|]; left; by eexists.
  - unfold_method. destruct (_digital_pins self !! j) as [d|] eqn:Hd;
      split_method; try (by left).
    all: right; do 2 eexists; split; [eassumption|]; right; eexists;
      split; [by left|done].
  - destruct (decide (j = 0)) as [->|Hj].
    + unfold_method. destruct (_digital_pins self !! 13) as [d|] eqn:Hd;
        split_method; try (by left).
      all: right; do 2 eexists; split; [eassumption|]; right; eexists;
        split; [by right|done].
    + left. unfold perform, finish, set_led_state, raise.
      by rewrite bool_decide_true.
Qed.

Lemma perform_state_other (c : call float) self i :
  writes_state i c = false →
  state <$> _digital_pins (perform N c self).2 !! i = state <$> _digital_pins self !! i.
Proof.
  intros Hc.
  destruct (perform_table c self)
    as [->|(j & d & Hd & [(m & -> & ->)|(st & Hwrite & ->)])]; [done|..].
  - rewrite lookup_insert. case_decide as Hji; [|done]. subst. by rewrite Hd.
  - rewrite lookup_insert_ne; [done|]. intros <-.
    destruct Hwrite as [->|[-> ->]]; simpl in Hc;
      first [discriminate | by apply bool_decide_eq_false in Hc].
Qed.

Lemma perform_mode_other (c : call float) self i :
  sets_mode i c = false →
  mode <$> _digital_pins (perform N c self).2 !! i = mode <$> _digital_pins self !! i.
Proof.
  intros Hc.
  destruct (perform_table c self)
    as [->|(j & d & Hd & [(m & -> & ->)|(st & Hwrite & ->)])]; [done|..].
  - rewrite lookup_insert_ne; [done|]. intros <-. simpl in Hc.
    first [discriminate | by apply bool_decide_eq_false in Hc].
  - rewrite lookup_insert. case_decide as Hji; [|done]. subst. by rewrite Hd.
Qed.

(** X6. The last written state of a pin is changed by the writes on that
    pin only ([write_gpio_pin_digital_state] on it, and [set_led_state] of
    LED 0 for pin 13): over any sequence of other calls, changes of mode
    and calls on other pins included, the state of the pin in the table
    stays what it was. *)
Theorem state_kept_by_other_calls (cs : list (call float)) self i :
  Forall (λ c, writes_state i c = false) cs →
  state <$> _digital_pins (perform_all N cs self) !! i
    = state <$> _digital_pins self !! i.
Proof.
  intros Hcs. revert self. induction Hcs as [|c cs Hc _ IH]; intros self; [done|].
  unfold perform_all in *. simpl. rewrite IH. by apply perform_state_other.
Qed.

(** X7. The mode of a pin is changed by [set_gpio_pin_mode] on that pin
    only: over any sequence of other calls, writes and calls on other pins
    included, the mode of the pin in the table stays what it was. *)
Theorem mode_kept_by_other_calls (cs : list (call float)) self i :
  Forall (λ c, sets_mode i c = false) cs →
  mode <$> _digital_pins (perform_all N cs self) !! i
    = mode <$> _digital_pins self !! i.
Proof.
  intros Hcs. revert self. induction Hcs as [|c cs Hc _ IH]; intros self; [done|].
  unfold perform_all in *. simpl. rewrite IH. by apply perform_mode_other.
Qed.

(** X8. Of two calls of [set_gpio_pin_mode] on a pin below the first
    analogue pin, the second with a digital mode, the second wins: the
    table is the one that the second call alone would have left. *)
Theorem set_gpio_pin_mode_last_wins self identifier first second :
  identifier < N → second ∈ digital_pin_modes →
  _digital_pins
    (set_gpio_pin_mode N identifier second
       (set_gpio_pin_mode N identifier first self).2).2
  = _digital_pins (set_gpio_pin_mode N identifier second self).2.
Proof.
  intros Hi Hsecond.
  assert (Hsame : (set_gpio_pin_mode N identifier first self).2 = self
                  ∨ ∃ d, _digital_pins self !! identifier = Some d
                      ∧ first ∈ digital_pin_modes).
  { destruct (_digital_pins self !! identifier) as [d|] eqn:Hd.
    - destruct (decide (first ∈ digital_pin_modes)) as [Hfirst|Hfirst]; [by eauto|].
      left. unfold_method. rewrite bool_decide_true by done.
      by rewrite bool_decide_false.
    - left. unfold_method. rewrite bool_decide_true by done.
      case_bool_decide; [by rewrite Hd|done]. }
  destruct Hsame as [->|(d & Hd & Hfirst)]; [done|].
  rewrite (set_gpio_pin_mode_digital self identifier first d) by done.
  rewrite (set_gpio_pin_mode_digital self identifier second d) by done.
  unfold sent at 2. simpl.
  rewrite (set_gpio_pin_mode_digital _ identifier second (with_mode d first));
    [|done|done|apply lookup_insert_eq].
  unfold sent. simpl. by rewrite insert_insert_eq.
Qed.

(** X9. On a backend a client can hold, an identifier below 2 (and below
    the first analogue pin) has no entry in the table: the operations that
    look the pin up raise [KeyError] with the identifier and change
    nothing. These are [get_gpio_pin_mode], the three digital-state
    operations, and [set_gpio_pin_mode] with a digital mode. *)
Theorem below_2_KeyError self identifier st pin_mode :
  reachable N self → identifier < 2 → identifier < N →
  get_gpio_pin_mode N identifier self = (Raise (KeyError (PyInt identifier)), self)
  ∧ write_gpio_pin_digital_state N identifier st self
      = (Raise (KeyError (PyInt identifier)), self)
  ∧ get_gpio_pin_digital_state N identifier self
      = (Raise (KeyError (PyInt identifier)), self)
  ∧ read_gpio_pin_digital_state N identifier self
      = (Raise (KeyError (PyInt identifier)), self)
  ∧ (pin_mode ∈ digital_pin_modes →
       set_gpio_pin_mode N identifier pin_mode self
         = (Raise (KeyError (PyInt identifier)), self)).
Proof.
  intros Hreach H2 HN.
  assert (Hnone : _digital_pins self !! identifier = None).
  { apply eq_None_not_Some. intros Hsome.
    apply (reachable_pins_wf _ Hreach) in Hsome. lia. }
  repeat split; try intros Hm; unfold_method;
    rewrite ?(bool_decide_true (identifier < N)) by done;
    rewrite ?(bool_decide_false (identifier >= N)) by lia;
    rewrite ?(bool_decide_true (pin_mode ∈ digital_pin_modes)) by done;
    by rewrite Hnone.
Qed.

(** X10. With pin 13 a digital pin, on a backend a client can hold: once
    pin 13 is set to [DIGITAL_OUTPUT], the state given to [set_led_state]
    for LED 0 is what [get_led_state] returns for LED 0, whatever the serial
    line answered to the two updates. *)
Theorem led_round_trip self st :
  13 < N → reachable N self →
  let configured := (set_gpio_pin_mode N 13 DIGITAL_OUTPUT self).2 in
  let lit := (set_led_state N 0 st configured).2 in
  get_led_state N 0 lit = (Ok st, lit).
Proof.
  intros H13 Hreach configured lit.
  destruct (proj2 (reachable_pins_wf _ Hreach 13)) as [d Hd]; [lia|].
  assert (Hconf : _digital_pins configured !! 13 = Some (with_mode d DIGITAL_OUTPUT)).
  { subst configured.
    rewrite (set_gpio_pin_mode_digital self 13 DIGITAL_OUTPUT d);
      [apply lookup_insert_eq | done | by apply digital_mode_cases | done]. }
  assert (Hlit : _digital_pins lit !! 13
                 = Some (with_state (with_mode d DIGITAL_OUTPUT) st)).
  { subst lit. unfold set_led_state.
    rewrite bool_decide_false by (intros Hne; by apply Hne).
    rewrite (write_gpio_pin_digital_state_output configured 13 st _ H13 Hconf eq_refl).
    apply lookup_insert_eq. }
  unfold get_led_state. rewrite bool_decide_false by (intros Hne; by apply Hne).
  by rewrite (get_gpio_pin_digital_state_output lit 13 _ H13 Hlit eq_refl).
Qed.

(** *** More on discovery *)

Lemma find_append {A} (f : A → bool) (l1 l2 : list A) :
  List.find f (l1 ++ l2) =
    match List.find f l1 with Some x => Some x | None => List.find f l2 end.
Proof.
  induction l1 as [|x l1 IH]; simpl; [done|]. by destruct (f x).
Qed.

Lemma discover_dom (comports : list ListPortInfo) serial_class :
  dom (discover N comports serial_class)
    = list_to_set (serial_number <$> List.filter is_arduino comports).
Proof.
  apply set_eq. intros s.
  rewrite elem_of_dom, discover_lookup, fmap_is_Some, elem_of_list_to_set.
  rewrite list_elem_of_fmap. split.
  - intros [port Hf]. apply find_some in Hf as [Hin Hp].
    apply andb_prop in Hp as [Ha Hs]. apply bool_decide_eq_true in Hs.
    exists port. split; [done|]. apply list_elem_of_In, filter_In. by split.
  - intros (port & -> & Hin). apply list_elem_of_In, filter_In in Hin as [Hin Ha].
    destruct (List.find _ comports) as [port'|] eqn:Hf; [by eexists|].
    pose proof (find_none _ _ Hf port Hin) as Hp. simpl in Hp.
    unfold has_serial in Hp. by rewrite Ha, bool_decide_true in Hp.
Qed.

Lemma size_list_to_set_le (l : list (option string)) :
  (size (list_to_set l : gset (option string)) ≤ List.length l)%nat.
Proof.
  induction l as [|x l IH].
  - by rewrite list_to_set_nil, size_empty.
  - rewrite list_to_set_cons, size_union_alt, size_singleton. simpl.
    pose proof (subseteq_size (list_to_set l ∖ {[x]}) (list_to_set l : gset _)
                  (subseteq_difference_l _ _ _ (reflexivity _))).
    lia.
Qed.

(** X11. Discovery over two lists of ports, one after the other, is the
    union of the two discoveries, in which a board of the first list is
    kept over a board of the second with the same serial number; over no
    port it is the empty set. *)
Theorem discover_app (first second : list ListPortInfo) serial_class :
  discover N (first ++ second) serial_class
    = discover N first serial_class ∪ discover N second serial_class
  ∧ discover N [] serial_class = ∅.
Proof.
  split; [|done]. apply map_eq. intros s.
  rewrite lookup_union, !discover_lookup, find_append.
  destruct (List.find _ first); simpl; [|by destruct (List.find _ second)].
  by destruct (List.find _ second).
Qed.

(** X12. [discover] returns at most as many boards as there are ports
    with identifiers in [USB_IDS], and exactly as many when the serial
    numbers of these ports are pairwise different. *)
Theorem discover_size (comports : list ListPortInfo) serial_class :
  (size (discover N comports serial_class)
     ≤ List.length (List.filter is_arduino comports))%nat
  ∧ (NoDup (serial_number <$> List.filter is_arduino comports) →
     size (discover N comports serial_class)
       = List.length (List.filter is_arduino comports)).
Proof.
  rewrite <- (size_dom (D := gset (option string))), discover_dom.
  rewrite <- (length_fmap serial_number (List.filter is_arduino comports)).
  split; [apply size_list_to_set_le|]. intros Hnd. by apply size_list_to_set.
Qed.

End Properties.

(** *** The Uno of the examples *)

Import Arduino.Recording.

Lemma reachable_uno : reachable 14 uno.
Proof. apply reachable_init. Qed.

(** C3, the claim as it is stated, at pin 0 of a new Uno: the pin is below
    the first analogue pin, and the call raises [KeyError]; it neither
    raises one of the two exceptions of the claim nor writes the state. *)
Lemma write_gpio_pin_digital_state_pin_0 :
  let after := write_gpio_pin_digital_state 14 0 true uno in
  0 < 14
  ∧ after = (Raise (KeyError (PyInt 0)), uno)
  ∧ (∀ m, after.1 ≠ Raise (NotSupportedByHardwareError m))
  ∧ (∀ m, after.1 ≠ Raise (ValueError m))
  ∧ after.1 ≠ Ok ()
  ∧ get_gpio_pin_digital_state 14 0 after.2 ≠ (Ok true, after.2).
Proof.
  assert (write_gpio_pin_digital_state 14 0 true uno
          = (Raise (KeyError (PyInt 0)), uno)) as -> by (vm_compute; reflexivity).
  simpl. repeat split; done.
Qed.

Lemma write_gpio_pin_digital_state_spec_witness :
  let self := (perform 14 (SetGpioPinMode 13 DIGITAL_OUTPUT) uno).2 in
  let after := write_gpio_pin_digital_state 14 13 true self in
  reachable 14 self ∧ 2 ≤ 13 < 14
  ∧ get_gpio_pin_digital_state 14 13 after.2 = (Ok true, after.2).
Proof.
  intros self after.
  assert (Hreach : reachable 14 self) by apply reachable_call, reachable_init.
  assert (Hpin : 2 ≤ 13 < 14) by lia.
  split; [done|]. split; [done|].
  destruct (proj2 (write_gpio_pin_digital_state_spec 14 self 13 true Hreach) Hpin)
    as (d & Hd & _ & Hout).
  apply Hout. vm_compute in Hd. by injection Hd as <-.
Defined.

(** C4, the claim as it is stated, at pin 0 of a new Uno with the mode
    [DIGITAL_OUTPUT]: the pin is below the first analogue pin and the mode
    is one of the three digital modes, and the call raises [KeyError]; it
    neither accepts the mode nor raises [NotSupportedByHardwareError]. *)
Lemma set_gpio_pin_mode_pin_0 :
  let after := set_gpio_pin_mode 14 0 DIGITAL_OUTPUT uno in
  0 < 14 ∧ DIGITAL_OUTPUT ∈ digital_pin_modes
  ∧ after = (Raise (KeyError (PyInt 0)), uno)
  ∧ after.1 ≠ Ok ()
  ∧ (∀ m, after.1 ≠ Raise (NotSupportedByHardwareError m)).
Proof.
  assert (set_gpio_pin_mode 14 0 DIGITAL_OUTPUT uno
          = (Raise (KeyError (PyInt 0)), uno)) as -> by (vm_compute; reflexivity).
  simpl. repeat split; try done.
  unfold digital_pin_modes. rewrite !elem_of_cons. auto.
Qed.

Lemma set_gpio_pin_mode_spec_witness :
  reachable 14 uno ∧ 2 ≤ 2 < 14 ∧ DIGITAL_OUTPUT ∈ digital_pin_modes
  ∧ (set_gpio_pin_mode 14 2 DIGITAL_OUTPUT uno).1 = Ok ()
  ∧ _digital_pins (set_gpio_pin_mode 14 2 DIGITAL_OUTPUT uno).2 !! 2
      = Some {| mode := DIGITAL_OUTPUT; state := false |}
  ∧ _serial (set_gpio_pin_mode 14 2 DIGITAL_OUTPUT uno).2
      = [(2, {| mode := DIGITAL_OUTPUT; state := false |})].
Proof.
  assert (Hpin : 2 ≤ 2 < 14) by lia.
  assert (Hmode : DIGITAL_OUTPUT ∈ digital_pin_modes).
  { unfold digital_pin_modes. rewrite !elem_of_cons. auto. }
  split; [apply reachable_uno|]. split; [done|]. split; [done|].
  destruct (proj1 (set_gpio_pin_mode_spec 14 uno 2 DIGITAL_OUTPUT reachable_uno)
              Hpin Hmode) as (d & Hd & ->).
  vm_compute in Hd. injection Hd as <-. simpl.
  split; [done|]. split; [apply lookup_insert_eq|done].
Defined.

Lemma led_state_spec_witness :
  13 < 14 ∧ reachable 14 uno
  ∧ get_led_state 14 0 uno
      = (Raise (ValueError (needs_digital_output_to_read 13)), uno)
  ∧ set_led_state 14 0 true uno
      = (Raise (ValueError (needs_digital_output_to_set 13)), uno)
  ∧ get_led_state 14 1 uno = (Raise (ValueError only_led_0), uno).
Proof.
  assert (H13 : 13 < 14) by lia.
  split; [done|]. split; [apply reachable_uno|].
  destruct (led_state_spec 14 uno true) as (Hother & _ & _ & Hzero).
  destruct (Hzero H13 reachable_uno) as (d & Hd & Hmode).
  vm_compute in Hd. injection Hd as <-.
  destruct Hmode as [Hget Hset]; [done|].
  split; [done|]. split; [done|].
  apply Hother. lia.
Defined.

Lemma pin_table_frame_witness :
  _digital_pins (perform 14 (SetGpioPinMode 2 DIGITAL_OUTPUT) uno).2
    ≠ _digital_pins uno
  ∧ ((∃ identifier pin_mode,
        SetGpioPinMode (float := Z) 2 DIGITAL_OUTPUT
          = SetGpioPinMode identifier pin_mode)
     ∨ (∃ identifier st,
          SetGpioPinMode (float := Z) 2 DIGITAL_OUTPUT
            = WriteGpioPinDigitalState identifier st)
     ∨ (∃ st, SetGpioPinMode (float := Z) 2 DIGITAL_OUTPUT = SetLedState 0 st)).
Proof.
  assert (Hchanged : _digital_pins (perform 14 (SetGpioPinMode 2 DIGITAL_OUTPUT) uno).2
                     ≠ _digital_pins uno).
  { intros Heq. apply (f_equal (λ pins, pins !! 2)) in Heq.
    vm_compute in Heq. discriminate. }
  split; [done|].
  apply (proj2 (pin_table_frame 14 uno) _ Hchanged).
Defined.

Lemma pin_table_keys_witness :
  reachable 14 uno ∧ 2 ≤ 13 < 14
  ∧ ∃ d, pin 13 uno = (Ok d, uno).
Proof.
  assert (Hpin : 2 ≤ 13 < 14) by lia.
  split; [apply reachable_uno|]. split; [done|].
  destruct (pin_table_keys 14 "/dev/ttyACM0" (λ _, [])) as (_ & _ & Hlookup).
  apply (proj2 (Hlookup uno reachable_uno) 13 Hpin).
Defined.

Lemma discover_spec_witness :
  let boards := discover 14 ports (λ path, path) in
  let b := {| serial := Some "A1";
              _backend := __init__ 14 "/dev/ttyUSB0" (λ path, path) |} in
  boards !! Some "A1" = Some b
  ∧ serial_port (_backend b) = "/dev/ttyUSB0"
  ∧ _serial (_backend b) = "/dev/ttyUSB0"
  ∧ _digital_pins (_backend b) !! 13
      = Some {| mode := DIGITAL_INPUT; state := false |}
  ∧ _digital_pins (_backend b) !! 14 = None
  ∧ ∃ port, port ∈ ports ∧ (vid port, pid port) ∈ USB_IDS
      ∧ serial_number port = Some "A1"
      ∧ serial_port (_backend b) = device port
      ∧ _serial (_backend b) = device port.
Proof.
  intros boards b.
  assert (Hb : boards !! Some "A1" = Some b).
  { subst boards b. vm_compute. reflexivity. }
  split; [done|].
  destruct (proj1 (proj2 (discover_spec 14 ports (λ path, path))) _ _ Hb)
    as (port & Hin & Husb & Hserial & Hboard & _ & Hport & Hline & Hpins).
  fold b in Hport, Hline, Hpins.
  assert (Hdevice : device port = "/dev/ttyUSB0").
  { rewrite <- Hport. reflexivity. }
  split; [by rewrite Hport|]. split; [by rewrite Hline, Hdevice|].
  split; [by rewrite Hpins|]. split; [by rewrite Hpins|].
  exists port. by rewrite Hport, Hline.
Defined.

Lemma read_gpio_pin_digital_state_spec_witness :
  reachable 14 uno ∧ 2 ≤ 2 < 14
  ∧ read_gpio_pin_digital_state 14 2 uno = (Ok false, uno)
  ∧ get_gpio_pin_digital_state 14 2 uno
      = (Raise (ValueError (needs_digital_output_to_read 2)), uno).
Proof.
  assert (Hpin : 2 ≤ 2 < 14) by lia.
  split; [apply reachable_uno|]. split; [done|].
  destruct (proj2 (read_gpio_pin_digital_state_spec 14 uno 2 reachable_uno) Hpin)
    as (d & Hd & _ & Hinput).
  vm_compute in Hd. injection Hd as <-.
  destruct Hinput as [-> ->]; [done|]. split; [|done].
  vm_compute. reflexivity.
Defined.

Lemma read_gpio_pin_analogue_value_spec_witness :
  13 < 14
  ∧ read_gpio_pin_analogue_value 14 13 uno
      = (Raise (NotSupportedByHardwareError analogue_on_digital_pin), uno).
Proof.
  assert (Hpin : 13 < 14) by lia.
  split; [done|].
  apply (proj1 (read_gpio_pin_analogue_value_spec 14 uno 13) Hpin).
Defined.

Lemma set_then_get_gpio_pin_mode_witness :
  reachable 14 uno ∧ 2 ≤ 2 < 14 ∧ DIGITAL_OUTPUT ∈ digital_pin_modes
  ∧ (get_gpio_pin_mode 14 2 (set_gpio_pin_mode 14 2 DIGITAL_OUTPUT uno).2).1
      = Ok DIGITAL_OUTPUT.
Proof.
  assert (Hpin : 2 ≤ 2 < 14) by lia.
  assert (Hmode : DIGITAL_OUTPUT ∈ digital_pin_modes).
  { unfold digital_pin_modes. rewrite !elem_of_cons. auto. }
  split; [apply reachable_uno|]. split; [done|]. split; [done|].
  by rewrite (proj1 (set_then_get_gpio_pin_mode 14 uno 2 DIGITAL_OUTPUT reachable_uno)
                Hpin Hmode).
Defined.

Lemma analogue_mode_iff_analogue_pin_witness :
  reachable 14 uno ∧ 2 ≤ 14
  ∧ (get_gpio_pin_mode 14 14 uno).1 = Ok ANALOGUE_INPUT.
Proof.
  assert (Hpin : 2 ≤ 14) by lia.
  assert (Hanalogue : 14 ≤ 14) by lia.
  split; [apply reachable_uno|]. split; [done|].
  apply (proj2 (analogue_mode_iff_analogue_pin 14 uno reachable_uno) 14 Hpin), Hanalogue.
Defined.

Lemma state_kept_by_other_calls_witness :
  let self := perform_all 14 [SetGpioPinMode 13 DIGITAL_OUTPUT;
                              WriteGpioPinDigitalState 13 true] uno in
  let cs := [SetGpioPinMode 13 DIGITAL_INPUT; WriteGpioPinDigitalState 12 false;
             SetLedState 1 false; SetGpioPinMode 13 DIGITAL_OUTPUT] in
  Forall (λ c : call Z, writes_state 13 c = false) cs
  ∧ state <$> _digital_pins (perform_all 14 cs self) !! 13
      = state <$> _digital_pins self !! 13.
Proof.
  intros self cs.
  assert (Hcs : Forall (λ c : call Z, writes_state 13 c = false) cs).
  { repeat constructor. }
  split; [done|].
  apply (state_kept_by_other_calls 14 cs self 13 Hcs).
Defined.

Lemma mode_kept_by_other_calls_witness :
  let self := perform_all 14 [SetGpioPinMode 13 DIGITAL_OUTPUT] uno in
  let cs := [WriteGpioPinDigitalState 13 true; SetGpioPinMode 2 DIGITAL_INPUT_PULLUP;
             SetLedState 0 false; ReadGpioPinAnalogueValue 15] in
  Forall (λ c : call Z, sets_mode 13 c = false) cs
  ∧ mode <$> _digital_pins (perform_all 14 cs self) !! 13
      = mode <$> _digital_pins self !! 13.
Proof.
  intros self cs.
  assert (Hcs : Forall (λ c : call Z, sets_mode 13 c = false) cs).
  { repeat constructor. }
  split; [done|].
  apply (mode_kept_by_other_calls 14 cs self 13 Hcs).
Defined.

Lemma set_gpio_pin_mode_last_wins_witness :
  2 < 14 ∧ DIGITAL_OUTPUT ∈ digital_pin_modes
  ∧ _digital_pins
      (set_gpio_pin_mode 14 2 DIGITAL_OUTPUT
         (set_gpio_pin_mode 14 2 DIGITAL_INPUT_PULLUP uno).2).2
    = _digital_pins (set_gpio_pin_mode 14 2 DIGITAL_OUTPUT uno).2.
Proof.
  assert (Hpin : 2 < 14) by lia.
  assert (Hmode : DIGITAL_OUTPUT ∈ digital_pin_modes).
  { unfold digital_pin_modes. rewrite !elem_of_cons. auto. }
  split; [done|]. split; [done|].
  apply (set_gpio_pin_mode_last_wins 14 uno 2 DIGITAL_INPUT_PULLUP DIGITAL_OUTPUT
           Hpin Hmode).
Defined.

Lemma below_2_KeyError_witness :
  reachable 14 uno ∧ 1 < 2 ∧ 1 < 14
  ∧ get_gpio_pin_mode 14 1 uno = (Raise (KeyError (PyInt 1)), uno).
Proof.
  assert (H2 : 1 < 2) by lia.
  assert (HN : 1 < 14) by lia.
  split; [apply reachable_uno|]. split; [done|]. split; [done|].
  apply (proj1 (below_2_KeyError 14 uno 1 true DIGITAL_OUTPUT reachable_uno H2 HN)).
Defined.

Lemma led_round_trip_witness :
  13 < 14 ∧ reachable 14 uno
  ∧ (get_led_state 14 0
       (set_led_state 14 0 true (set_gpio_pin_mode 14 13 DIGITAL_OUTPUT uno).2).2).1
      = Ok true.
Proof.
  assert (H13 : 13 < 14) by lia.
  split; [done|]. split; [apply reachable_uno|].
  by rewrite (led_round_trip 14 uno true H13 reachable_uno).
Defined.

Lemma discover_size_witness :
  NoDup (serial_number <$> List.filter is_arduino [real_uno])
  ∧ size (discover 14 [real_uno] (λ _, [] : line)) = 1%nat.
Proof.
  assert (Hnd : NoDup (serial_number <$> List.filter is_arduino [real_uno])).
  { vm_compute. apply NoDup_singleton. }
  split; [done|].
  apply (proj2 (discover_size 14 [real_uno] (λ _, [])) Hnd).
Defined.

End ArduinoProperties.

(** ** Properties of the board group *)

Module BoardGroupProperties.
Import BoardGroups.

Global Instance serial_le_total : Total serial_le.
Proof. intros b1 b2. unfold serial_le. apply (total String.le). Qed.

Global Instance serial_le_trans : Transitive serial_le.
Proof. intros b1 b2 b3. unfold serial_le. apply (transitivity (R := String.le)). Qed.

Lemma serial_le_lt (b1 b2 : Board) :
  serial_le b1 b2 → serial b1 ≠ serial b2 → serial_lt b1 b2.
Proof.
  unfold serial_le, serial_lt, String.le, String.leb, String.ltb.
  intros Hle Hne. destruct (String.compare (serial b1) (serial b2)) eqn:Hc.
  - by apply String.compare_eq_iff in Hc.
  - done.
  - done.
Qed.

Lemma StronglySorted_strict (l : list Board) :
  StronglySorted serial_le l → NoDup (serial <$> l) → StronglySorted serial_lt l.
Proof.
  induction 1 as [|b l Hl IH Hb]; intros Hnd; [constructor|].
  rewrite fmap_cons in Hnd. apply NoDup_cons in Hnd as [Hnotin Hnd].
  constructor; [by apply IH|].
  rewrite Forall_forall in Hb. apply Forall_forall. intros b' Hin.
  apply serial_le_lt; [by apply Hb|].
  intros Heq. apply Hnotin. rewrite Heq.
  apply list_elem_of_fmap. by exists b'.
Qed.

Section Properties.
Context {Env : Type}.

Implicit Types (p : process Env) (g : BoardGroup Env) (cls : backend_class Env)
  (env : Env) (boards : gmap string Board) (s : string) (b : Board)
  (descriptors : list (string * string)) (next it : nat)
  (schedule : list bool) (l : list Board).

(** *** Construction of the boards *)

Lemma construct_next descriptors boards next :
  (construct descriptors boards next).2 = (next + List.length descriptors)%nat.
Proof.
  revert boards next. induction descriptors as [|[s n] rest IH];
    intros boards next; simpl; [lia|].
  rewrite IH. lia.
Qed.

Lemma construct_lookup_Some descriptors boards next s b :
  (construct descriptors boards next).1 !! s = Some b →
  boards !! s = Some b
  ∨ (boards !! s = None ∧ serial b = s ∧ s ∈ descriptors.*1
     ∧ (next ≤ obj b < next + List.length descriptors)%nat).
Proof.
  revert boards next. induction descriptors as [|[s' n] rest IH];
    intros boards next; simpl; [by left|].
  intros Hb. apply IH in Hb. destruct (boards !! s') eqn:Hs'.
  - destruct Hb as [Hb|(Hnone & Hs & Hin & Hobj)]; [by left|].
    right. repeat split; [done|done| |lia|lia].
    apply elem_of_cons. by right.
  - destruct (decide (s' = s)) as [->|Hne].
    + rewrite lookup_insert_eq in Hb.
      destruct Hb as [[= <-]|[Hnone _]]; [|done].
      right. simpl. repeat split; [done| |lia|lia]. apply elem_of_cons. by left.
    + rewrite lookup_insert_ne in Hb by done.
      destruct Hb as [Hb|(Hnone & Hs & Hin & Hobj)]; [by left|].
      right. repeat split; [done|done| |lia|lia].
      apply elem_of_cons. by right.
Qed.

Lemma construct_dom descriptors boards next :
  dom (construct descriptors boards next).1 = dom boards ∪ list_to_set descriptors.*1.
Proof.
  revert boards next. induction descriptors as [|[s n] rest IH];
    intros boards next; simpl.
  - by rewrite (right_id_L ∅ (∪)).
  - rewrite IH. destruct (boards !! s) eqn:Hs.
    + apply (elem_of_dom_2 (D := gset string)) in Hs.
      apply set_eq. intros x. rewrite !elem_of_union, elem_of_singleton.
      split; [tauto|]. intros [?|[->|?]]; tauto.
    + rewrite dom_insert_L.
      apply set_eq. intros x. rewrite !elem_of_union, elem_of_singleton. tauto.
Qed.

(** *** The invariant of the processes *)

Lemma update_boards_eq env p :
  update_boards env p =
    {| group := {| _backend_class := _backend_class (group p);
                   _boards := (discover (_backend_class (group p)) env (next_obj p)).1 |};
       iterators := iterators p;
       next_obj := (next_obj p + List.length (found (_backend_class (group p)) env))%nat |}.
Proof.
  unfold update_boards.
  pose proof (construct_next (found (_backend_class (group p)) env) ∅ (next_obj p)) as Hn.
  unfold discover in *. by destruct (construct _ _ _) as [boards next]; simpl in *; subst.
Qed.

Lemma update_boards_stored_well env p : stored_well (update_boards env p).
Proof.
  rewrite update_boards_eq. intros s b Hb. simpl in *.
  apply construct_lookup_Some in Hb as [Hb|(_ & Hs & _ & Hobj)]; [done|].
  split; [done|lia].
Qed.

Lemma reachable_stored_well p : reachable p → stored_well p.
Proof.
  induction 1 as [cls env next|env p _ IH|cls p _ IH|p _ IH|it p _ IH].
  - apply update_boards_stored_well.
  - apply update_boards_stored_well.
  - done.
  - intros s b Hb. destruct (IH s b Hb). simpl. split; [done|lia].
  - unfold __next__. destruct (iterators p !! it) as [[|b' rest]|]; done.
Qed.

(** *** Refresh *)

(** C2. On a process there can be, after [update_boards()] the mapping is
    the set the discoverer has just returned, keyed by serial number: its
    keys are the serial numbers found, a serial number that is not found
    any more has no board, and the board of a serial number that had one
    before the refresh is another object than that one, stored under the
    same serial number. *)
Theorem update_boards_fresh env p :
  reachable p →
  let cls := _backend_class (group p) in
  let p' := update_boards env p in
  _boards (group p') = (discover cls env (next_obj p)).1
  ∧ dom (_boards (group p')) = list_to_set (found cls env).*1
  ∧ (∀ s, s ∉ (found cls env).*1 → _boards (group p') !! s = None)
  ∧ (∀ s old new,
       _boards (group p) !! s = Some old →
       _boards (group p') !! s = Some new →
       obj new ≠ obj old ∧ serial new = s ∧ serial old = s).
Proof.
  intros Hreach cls p'. subst p' cls. rewrite update_boards_eq. simpl.
  assert (Hdom : dom (discover (_backend_class (group p)) env (next_obj p)).1
                 = list_to_set (found (_backend_class (group p)) env).*1).
  { unfold discover. rewrite construct_dom, dom_empty_L.
    by rewrite (left_id_L ∅ (∪)). }
  split; [done|]. split; [done|]. split.
  - intros s Hs. apply (not_elem_of_dom (D := gset string)).
    rewrite Hdom. by rewrite elem_of_list_to_set.
  - intros s old new Hold Hnew.
    destruct (reachable_stored_well p Hreach s old Hold) as [Hs Hobj].
    apply construct_lookup_Some in Hnew as [Hnew|(_ & Hs' & _ & Hobj')]; [done|].
    split; [lia|done].
Qed.

(** *** Access to one board *)

(** C1. [singular()] returns the board of the group when the group has
    exactly one; it raises [CommunicationError] when the group has no
    board, and when it has more than one. *)
Theorem singular_spec g :
  (size (_boards g) = 1%nat →
     ∃ s b, _boards g = {[ s := b ]} ∧ singular g = Ok b)
  ∧ (size (_boards g) = 0%nat →
     singular g = Raise (CommunicationError no_board_found))
  ∧ ((1 < size (_boards g))%nat →
     singular g = Raise (CommunicationError more_than_one_board_found)).
Proof.
  unfold singular. rewrite <- (length_map_to_list (_boards g)).
  pose proof (list_to_map_to_list (_boards g)) as Hm.
  destruct (map_to_list (_boards g)) as [|[s b] [|[s' b'] rest]]; simpl in *.
  - repeat split; [done|lia].
  - repeat split; [|done|lia]. intros _. exists s, b. split; [|done].
    by rewrite <- Hm, insert_empty.
  - repeat split; [lia|done].
Qed.

(** C8. Indexing a board group with a key that is not a string raises
    [TypeError]; indexing it with a string that is the serial number of
    none of its boards raises [KeyError]; the two are different
    exceptions. A string that is the serial number of a board gives that
    board. *)
Theorem getitem_key_type g key :
  ((∀ s, key ≠ PyStr s) → __getitem__ key g = Raise TypeError)
  ∧ (∀ s, key = PyStr s → _boards g !! s = None →
       __getitem__ key g = Raise (KeyError (PyStr s)))
  ∧ (∀ s b, key = PyStr s → _boards g !! s = Some b →
       __getitem__ key g = Ok b)
  ∧ (∀ k, @Raise Board TypeError ≠ Raise (KeyError k)).
Proof.
  repeat split.
  - intros Hkey. destruct key as [|?|?|s|?]; try done. by destruct (Hkey s).
  - intros s -> Hs. simpl. by rewrite Hs.
  - intros s b -> Hs. simpl. by rewrite Hs.
  - done.
Qed.

(** *** Iteration *)

Lemma list_boards_Permutation g :
  list_boards g ≡ₚ (map_to_list (_boards g)).*2.
Proof. apply merge_sort_Permutation. Qed.

Lemma serials_of_values boards :
  (∀ s b, boards !! s = Some b → serial b = s) →
  serial <$> (map_to_list boards).*2 = (map_to_list boards).*1.
Proof.
  intros Hwf.
  assert (Hall : Forall (λ sb, serial sb.2 = sb.1) (map_to_list boards)).
  { apply Forall_forall. intros [s b] Hin. simpl.
    apply Hwf. by apply elem_of_map_to_list. }
  revert Hall. generalize (map_to_list boards).
  induction 1 as [|[s b] pairs Hsb _ IH]; [done|].
  rewrite !fmap_cons. simpl in Hsb. simpl fst. simpl snd. by rewrite Hsb, IH.
Qed.

Lemma list_boards_sorted p :
  stored_well p → StronglySorted serial_lt (list_boards (group p)).
Proof.
  intros Hwf. apply StronglySorted_strict.
  - apply Sorted_StronglySorted; [apply _|].
    apply (Sorted_merge_sort serial_le).
  - rewrite list_boards_Permutation, serials_of_values.
    + apply NoDup_fst_map_to_list.
    + intros s b Hb. by destruct (Hwf s b Hb).
Qed.

Lemma yields_cons k b l : yields (S k) (b :: l) = Ok b :: yields k l.
Proof. unfold yields. rewrite firstn_cons, fmap_cons. by simpl. Qed.

Lemma yields_nil k : yields (S k) [] = Raise StopIteration :: yields k [].
Proof. unfold yields. simpl. by rewrite take_nil, Nat.sub_0_r. Qed.

Lemma next_other it it' p :
  it ≠ it' → iterators (__next__ it p).2 !! it' = iterators p !! it'.
Proof.
  intros Hne. unfold __next__.
  destruct (iterators p !! it) as [[|b rest]|]; simpl; try done.
  by rewrite lookup_insert_ne.
Qed.

Lemma advance_cons it1 it2 which schedule p :
  advance it1 it2 (which :: schedule) p =
    let r := __next__ (if which then it1 else it2) p in
    (r.1 :: (advance it1 it2 schedule r.2).1, (advance it1 it2 schedule r.2).2).
Proof.
  simpl. destruct (__next__ _ p) as [r p']. simpl.
  by destruct (advance it1 it2 schedule p').
Qed.

Lemma results_of_cons (which w : bool) schedule (r : result Board) rs :
  results_of which (w :: schedule) (r :: rs) =
    if bool_decide (w = which) then r :: results_of which schedule rs
    else results_of which schedule rs.
Proof. unfold results_of. simpl. by case_bool_decide. Qed.

Lemma calls_on_cons (which w : bool) schedule :
  calls_on which (w :: schedule) =
    if bool_decide (w = which) then S (calls_on which schedule)
    else calls_on which schedule.
Proof. unfold calls_on. simpl. by case_bool_decide. Qed.

(** Two iterators that are different objects, advanced in any order: each
    returns what it would return alone. *)
Lemma advance_independent it1 it2 schedule p l1 l2 :
  it1 ≠ it2 →
  iterators p !! it1 = Some l1 → iterators p !! it2 = Some l2 →
  results_of true schedule (advance it1 it2 schedule p).1
    = yields (calls_on true schedule) l1
  ∧ results_of false schedule (advance it1 it2 schedule p).1
    = yields (calls_on false schedule) l2
  ∧ group (advance it1 it2 schedule p).2 = group p.
Proof.
  intros Hne. revert p l1 l2.
  induction schedule as [|which schedule IH]; intros p l1 l2 H1 H2.
  { by destruct l1, l2. }
  rewrite advance_cons. cbv zeta. simpl fst. simpl snd.
  rewrite !results_of_cons, !calls_on_cons.
  destruct which; simpl bool_decide; cbv iota.
  - assert (Hother := next_other it1 it2 p Hne). rewrite H2 in Hother.
    unfold __next__ in *. rewrite H1 in *. destruct l1 as [|b rest].
    + destruct (IH p [] l2 H1 H2) as (IH1 & IH2 & IHg).
      simpl. by rewrite IH1, IH2, yields_nil.
    + simpl in *.
      destruct (IH {| group := group p;
                      iterators := <[it1:=rest]> (iterators p);
                      next_obj := next_obj p |} rest l2) as (IH1 & IH2 & IHg);
        [apply lookup_insert_eq | done |].
      by rewrite IH1, IH2, yields_cons.
  - assert (Hother := next_other it2 it1 p (not_eq_sym Hne)). rewrite H1 in Hother.
    unfold __next__ in *. rewrite H2 in *. destruct l2 as [|b rest].
    + destruct (IH p l1 [] H1 H2) as (IH1 & IH2 & IHg).
      simpl. by rewrite IH1, IH2, yields_nil.
    + simpl in *.
      destruct (IH {| group := group p;
                      iterators := <[it2:=rest]> (iterators p);
                      next_obj := next_obj p |} l1 rest) as (IH1 & IH2 & IHg);
        [done | apply lookup_insert_eq |].
      by rewrite IH1, IH2, yields_cons.
Qed.

(** C5. On a process there can be, the boards of the group are listed by
    strictly ascending serial number, each once; and for two iterators
    taken from the group one after the other, which are different
    objects: a call of [next] on one leaves the boards the other has yet
    to yield as they were, and however the calls on the two are
    interleaved, each returns the boards of the list in order, and
    [StopIteration] after the last. *)
Theorem iteration_sorted_independent p :
  reachable p →
  let l := list_boards (group p) in
  let it1 := (__iter__ p).1 in
  let it2 := (__iter__ (__iter__ p).2).1 in
  let p2 := (__iter__ (__iter__ p).2).2 in
  StronglySorted serial_lt l
  ∧ l ≡ₚ (map_to_list (_boards (group p))).*2
  ∧ it1 ≠ it2
  ∧ iterators p2 !! it1 = Some l ∧ iterators p2 !! it2 = Some l
  ∧ (∀ q : process Env,
       iterators (__next__ it1 q).2 !! it2 = iterators q !! it2
          ∧ iterators (__next__ it2 q).2 !! it1 = iterators q !! it1)
  ∧ (∀ schedule,
       results_of true schedule (advance it1 it2 schedule p2).1
         = yields (calls_on true schedule) l
       ∧ results_of false schedule (advance it1 it2 schedule p2).1
         = yields (calls_on false schedule) l).
Proof.
  intros Hreach l it1 it2 p2.
  assert (Hne : it1 ≠ it2) by (subst it1 it2; simpl; lia).
  assert (H1 : iterators p2 !! it1 = Some l).
  { subst p2 it1. simpl. rewrite lookup_insert_ne by lia. apply lookup_insert_eq. }
  assert (H2 : iterators p2 !! it2 = Some l).
  { subst p2 it2. simpl. apply lookup_insert_eq. }
  split; [by apply list_boards_sorted, reachable_stored_well|].
  split; [apply list_boards_Permutation|].
  split; [done|]. split; [done|]. split; [done|]. split.
  - intros q. split; by apply next_other.
  - intros schedule.
    destruct (advance_independent it1 it2 schedule p2 l l Hne H1 H2) as (? & ? & _).
    done.
Qed.

(** *** How the operations of the group agree *)

(** X13. In the board group as modelled, the operations agree:
    [contains] holds of a string exactly when indexing with it gives a
    board; the length is the number of boards that iteration lists; and, on
    a process there can be, a board is listed by iteration exactly when
    indexing with its serial number gives that board. *)
Theorem lookup_iteration_agree p :
  reachable p →
  (∀ s, contains s (group p) = true ↔ ∃ b, __getitem__ (PyStr s) (group p) = Ok b)
  ∧ length (group p) = List.length (list_boards (group p))
  ∧ (∀ b, b ∈ list_boards (group p)
          ↔ __getitem__ (PyStr (serial b)) (group p) = Ok b).
Proof.
  intros Hreach. pose proof (reachable_stored_well p Hreach) as Hwf.
  split; [|split].
  - intros s. unfold contains. rewrite bool_decide_eq_true. simpl.
    destruct (_boards (group p) !! s) as [b|]; split.
    + by eexists.
    + by eexists.
    + by intros [? ?].
    + by intros [? ?].
  - unfold length. rewrite (Permutation_length (list_boards_Permutation (group p))).
    by rewrite length_fmap, length_map_to_list.
  - intros b. rewrite list_boards_Permutation, list_elem_of_fmap. simpl. split.
    + intros ([s b'] & -> & Hin). simpl. apply elem_of_map_to_list in Hin.
      destruct (Hwf s b' Hin) as [-> _]. by rewrite Hin.
    + destruct (_boards (group p) !! serial b) as [b'|] eqn:Hb; [|done].
      intros [= ->]. exists (serial b, b). split; [done|].
      by apply elem_of_map_to_list.
Qed.

(** X14. In the board group as modelled, [singular()] returns a board
    exactly when iteration lists that board and no other. *)
Theorem singular_iff_only_listed g b :
  singular g = Ok b ↔ list_boards g = [b].
Proof.
  unfold singular. pose proof (list_boards_Permutation g) as Hperm.
  destruct ((map_to_list (_boards g)).*2) as [|b1 [|b2 rest]] eqn:Hl.
  - apply Permutation_nil_r in Hperm. rewrite Hperm. by split.
  - apply Permutation_singleton_r in Hperm. rewrite Hperm. split; by intros [= ->].
  - split; [done|]. intros Hone. rewrite Hone in Hperm.
    apply Permutation_length in Hperm. done.
Qed.

(** X15. In the board group as modelled, after [update_boards()] a string
    is contained in the group exactly when it is the serial number of a
    descriptor that the discoverer has just found, whatever the group held
    before; the length of the group is the number of different serial
    numbers found; and a group whose discoverer finds nothing is empty, so
    that [singular()] raises [CommunicationError]. *)
Theorem update_boards_contents env p :
  let cls := _backend_class (group p) in
  let g := group (update_boards env p) in
  (∀ s, contains s g = true ↔ s ∈ (found cls env).*1)
  ∧ length g = size (list_to_set (found cls env).*1 : gset string)
  ∧ (NoDup (found cls env).*1 → length g = List.length (found cls env))
  ∧ (found cls env = [] →
       length g = 0%nat
       ∧ singular g = Raise (CommunicationError no_board_found)).
Proof.
  intros cls g. subst cls g. rewrite update_boards_eq. simpl.
  assert (Hdom : dom (discover (_backend_class (group p)) env (next_obj p)).1
                 = list_to_set (found (_backend_class (group p)) env).*1).
  { unfold discover. rewrite construct_dom, dom_empty_L.
    by rewrite (left_id_L ∅ (∪)). }
  assert (Hlen : ∀ boards : gmap string Board,
            length {| _backend_class := _backend_class (group p); _boards := boards |}
            = size (dom boards)).
  { intros boards. unfold length. simpl. by rewrite size_dom. }
  split; [|split; [|split]].
  - intros s. unfold contains. rewrite bool_decide_eq_true. simpl.
    by rewrite <- elem_of_dom, Hdom, elem_of_list_to_set.
  - by rewrite Hlen, Hdom.
  - intros Hnd. rewrite Hlen, Hdom, size_list_to_set by done. apply length_fmap.
  - intros Hnone. unfold singular, length, discover. simpl. by rewrite Hnone.
Qed.

End Properties.

(** *** The groups of the tests *)

Import BoardGroups.Mock.

Lemma update_boards_fresh_witness :
  let p := get_board_group OneBoardMockBackend () 0 in
  reachable p
  ∧ _boards (group p) !! "TESTSERIAL1" = Some (board1 0)
  ∧ _boards (group (update_boards () p)) !! "TESTSERIAL1" = Some (board1 1)
  ∧ obj (board1 1) ≠ obj (board1 0).
Proof.
  intros p.
  assert (Hreach : reachable p) by apply reachable_get.
  assert (Hold : _boards (group p) !! "TESTSERIAL1" = Some (board1 0))
    by (vm_compute; reflexivity).
  assert (Hnew : _boards (group (update_boards () p)) !! "TESTSERIAL1"
                 = Some (board1 1)) by (vm_compute; reflexivity).
  split; [done|]. split; [done|]. split; [done|].
  destruct (update_boards_fresh () p Hreach) as (_ & _ & _ & Hfresh).
  apply (Hfresh _ _ _ Hold Hnew).
Defined.

Lemma singular_spec_witness :
  let g := group (get_board_group OneBoardMockBackend () 0) in
  size (_boards g) = 1%nat
  ∧ ∃ s b, _boards g = {[ s := b ]} ∧ singular g = Ok b.
Proof.
  intros g.
  assert (Hsize : size (_boards g) = 1%nat) by (vm_compute; reflexivity).
  split; [done|].
  apply (proj1 (singular_spec g) Hsize).
Defined.

Lemma getitem_key_type_witness :
  let g := group (get_board_group OneBoardMockBackend () 0) in
  (∀ s, PyInt 0 ≠ PyStr s)
  ∧ __getitem__ (PyInt 0) g = Raise TypeError.
Proof.
  intros g.
  assert (Hkey : ∀ s, PyInt 0 ≠ PyStr s) by discriminate.
  split; [done|].
  apply (proj1 (getitem_key_type g (PyInt 0)) Hkey).
Defined.

Lemma iteration_sorted_independent_witness :
  let p := get_board_group TwoBoardsMockBackend () 0 in
  reachable p
  ∧ list_boards (group p) = [board1 0; board2 1]
  ∧ ∀ schedule,
      results_of true schedule (advance 2 3 schedule (__iter__ (__iter__ p).2).2).1
        = yields (calls_on true schedule) (list_boards (group p)).
Proof.
  intros p.
  assert (Hreach : reachable p) by apply reachable_get.
  split; [done|]. split; [vm_compute; reflexivity|].
  intros schedule.
  destruct (iteration_sorted_independent p Hreach) as (_ & _ & _ & _ & _ & _ & Hrun).
  apply (Hrun schedule).
Defined.

Lemma lookup_iteration_agree_witness :
  let p := get_board_group TwoBoardsMockBackend () 0 in
  reachable p ∧ length (group p) = 2%nat.
Proof.
  intros p.
  assert (Hreach : reachable p) by apply reachable_get.
  split; [done|].
  rewrite (proj1 (proj2 (lookup_iteration_agree p Hreach))).
  vm_compute. reflexivity.
Defined.

Lemma update_boards_contents_witness :
  let p := get_board_group OneBoardMockBackend () 0 in
  found NoBoardMockBackend () = []
  ∧ length (group (update_boards () (set_backend_class NoBoardMockBackend p))) = 0%nat.
Proof.
  intros p.
  assert (Hnone : found NoBoardMockBackend () = []) by reflexivity.
  split; [done|].
  apply (proj2 (proj2 (proj2
           (update_boards_contents () (set_backend_class NoBoardMockBackend p))))
           Hnone).
Defined.

End BoardGroupProperties.
